(** * gosfv: the checksum-file engine of [internal/sfv]

    A shallow embedding of the Go package [sfv]: the types [ChecksumFile],
    [ChecksumType] and [ChecksumStatus], and the functions [StringToType],
    [Create], [Verify], [parseSfvFile], [WriteToFile], [calculateChecksum],
    [verifyChecksumFile] and [createChecksumFile].

    The package is written against the Go standard library, which is
    modelled as far as the package observes it: [hash/crc32], [crypto/md5],
    [crypto/sha1] and [crypto/sha256] after their standards, [fmt]'s [%x]
    verb, [os.Open], [Stat] and [os.Create], [bufio.Reader.Read],
    [bufio.Scanner] with [bufio.ScanLines], and the fragment of [regexp]
    the four patterns of the parser use.  A call of the package returns,
    panics, ends the process ([log.Fatal]) or does not return; the file
    system, standard input, the clock and the build strings form a
    [World] the functions read.  The progress bar, which only receives
    byte counts, is left out. *)

From Stdlib Require Import ZArith List Ascii Bool Lia Arith.
From Stdlib Require String.
Import ListNotations.
Import String.StringSyntax.

Local Open Scope string_scope.
Local Open Scope list_scope.
Local Open Scope Z_scope.

(** Go's [string] and [[]byte] are both byte sequences. *)
Definition byte := ascii.
Definition gostring := list byte.

Definition str (s : String.string) : gostring :=
  String.list_ascii_of_string s.

Definition byte_val (b : byte) : Z := Z.of_N (N_of_ascii b).

(* ================================================================== *)
(** ** Outcomes of a Go call *)

(** A call returns, panics (run-time error), ends the process through
    [log.Fatal], or never returns. *)
Inductive Result (A : Type) : Type :=
| Ret (a : A)
| Panic
| Fatal
| Diverges.

Arguments Ret {A} a.
Arguments Panic {A}.
Arguments Fatal {A}.
Arguments Diverges {A}.

Definition bind {A B} (m : Result A) (k : A -> Result B) : Result B :=
  match m with
  | Ret a => k a
  | Panic => Panic
  | Fatal => Fatal
  | Diverges => Diverges
  end.

Notation "x <- m ;; k" := (bind m (fun x => k))
  (at level 61, m at next level, right associativity).
Notation "' pat <- m ;; k" :=
  (bind m (fun x => match x with pat => k end))
  (at level 61, pat pattern, m at next level, right associativity).

Fixpoint mapM {A B} (f : A -> Result B) (l : list A) : Result (list B) :=
  match l with
  | [] => Ret []
  | a :: l' => b <- f a ;; bs <- mapM f l' ;; Ret (b :: bs)
  end.

(* ================================================================== *)
(** ** 32-bit words *)

Module Word.

Definition modulus : Z := 2 ^ 32.
Definition mask : Z := 0xFFFFFFFF.

Definition wrap (x : Z) : Z := x mod modulus.
Definition add (x y : Z) : Z := wrap (x + y).
Definition not (x : Z) : Z := Z.lxor x mask.
Definition rotl (x n : Z) : Z :=
  Z.lor (wrap (Z.shiftl x n)) (Z.shiftr x (32 - n)).
Definition rotr (x n : Z) : Z :=
  Z.lor (Z.shiftr x n) (wrap (Z.shiftl x (32 - n))).

(** The four bytes of a word, most significant first / last. *)
Definition bytes_be (x : Z) : list Z :=
  [Z.shiftr x 24 mod 256; Z.shiftr x 16 mod 256;
   Z.shiftr x 8 mod 256; x mod 256].
Definition bytes_le (x : Z) : list Z := rev (bytes_be x).

Definition of_be (b0 b1 b2 b3 : Z) : Z :=
  Z.lor (Z.shiftl b0 24) (Z.lor (Z.shiftl b1 16) (Z.lor (Z.shiftl b2 8) b3)).
Definition of_le (b0 b1 b2 b3 : Z) : Z := of_be b3 b2 b1 b0.

End Word.

(* ================================================================== *)
(** ** hash/crc32 (IEEE polynomial) *)

Module CRC32.

Definition IEEE : Z := 0xedb88320.

(** One of the eight steps of [simplePopulateTable]. *)
Definition table_step (crc : Z) : Z :=
  if Z.testbit crc 0 then Z.lxor (Z.shiftr crc 1) IEEE else Z.shiftr crc 1.

Definition table_entry (i : Z) : Z :=
  table_step (table_step (table_step (table_step
    (table_step (table_step (table_step (table_step i))))))).

(** [simpleUpdate]: [crc = ^crc; for v in p { crc = tab[byte(crc)^v] ^ (crc >> 8) }; ^crc]. *)
Definition update_byte (crc : Z) (v : byte) : Z :=
  Z.lxor (table_entry (Z.lxor (crc mod 256) (byte_val v))) (Z.shiftr crc 8).

Definition update (crc : Z) (p : list byte) : Z :=
  Word.not (fold_left update_byte p (Word.not crc)).

(** [crc32.ChecksumIEEE]. *)
Definition checksum (p : list byte) : Z := update 0 p.

End CRC32.

(* ================================================================== *)
(** ** Merkle–Damgård padding shared by MD5, SHA-1 and SHA-256 *)

Module Pad.

(** The 64-bit message length in bits, as eight bytes, most
    significant first. *)
Definition len_be (n : Z) : list Z :=
  let bits := (8 * n) mod 2 ^ 64 in
  Word.bytes_be (Z.shiftr bits 32) ++ Word.bytes_be (bits mod 2 ^ 32).

Definition len_le (n : Z) : list Z := rev (len_be n).

(** Number of zero bytes after the [0x80] marker so that the padded
    message, with its eight length bytes, fills whole 64-byte blocks. *)
Definition zeros (n : Z) : nat := Z.to_nat ((55 - n) mod 64).

Definition pad (len_bytes : Z -> list Z) (msg : list byte) : list Z :=
  let n := Z.of_nat (length msg) in
  map byte_val msg ++ [0x80] ++ repeat 0 (zeros n) ++ len_bytes n.

(** Cut a byte sequence into 64-byte blocks. *)
Fixpoint blocks (fuel : nat) (l : list Z) : list (list Z) :=
  match fuel with
  | O => []
  | S fuel' =>
      match l with
      | [] => []
      | _ => firstn 64 l :: blocks fuel' (skipn 64 l)
      end
  end.

Definition split (l : list Z) : list (list Z) := blocks (length l) l.

(** The sixteen words of a block. *)
Fixpoint words (of_bytes : Z -> Z -> Z -> Z -> Z) (n : nat) (b : list Z)
  : list Z :=
  match n with
  | O => []
  | S n' =>
      match b with
      | b0 :: b1 :: b2 :: b3 :: rest =>
          of_bytes b0 b1 b2 b3 :: words of_bytes n' rest
      | _ => []
      end
  end.

End Pad.

(* ================================================================== *)
(** ** crypto/md5 *)

Module MD5.

Definition K : list Z :=
  [0xd76aa478; 0xe8c7b756; 0x242070db; 0xc1bdceee;
   0xf57c0faf; 0x4787c62a; 0xa8304613; 0xfd469501;
   0x698098d8; 0x8b44f7af; 0xffff5bb1; 0x895cd7be;
   0x6b901122; 0xfd987193; 0xa679438e; 0x49b40821;
   0xf61e2562; 0xc040b340; 0x265e5a51; 0xe9b6c7aa;
   0xd62f105d; 0x02441453; 0xd8a1e681; 0xe7d3fbc8;
   0x21e1cde6; 0xc33707d6; 0xf4d50d87; 0x455a14ed;
   0xa9e3e905; 0xfcefa3f8; 0x676f02d9; 0x8d2a4c8a;
   0xfffa3942; 0x8771f681; 0x6d9d6122; 0xfde5380c;
   0xa4beea44; 0x4bdecfa9; 0xf6bb4b60; 0xbebfbc70;
   0x289b7ec6; 0xeaa127fa; 0xd4ef3085; 0x04881d05;
   0xd9d4d039; 0xe6db99e5; 0x1fa27cf8; 0xc4ac5665;
   0xf4292244; 0x432aff97; 0xab9423a7; 0xfc93a039;
   0x655b59c3; 0x8f0ccc92; 0xffeff47d; 0x85845dd1;
   0x6fa87e4f; 0xfe2ce6e0; 0xa3014314; 0x4e0811a1;
   0xf7537e82; 0xbd3af235; 0x2ad7d2bb; 0xeb86d391].

Definition S : list Z :=
  [7; 12; 17; 22; 7; 12; 17; 22; 7; 12; 17; 22; 7; 12; 17; 22;
   5; 9; 14; 20; 5; 9; 14; 20; 5; 9; 14; 20; 5; 9; 14; 20;
   4; 11; 16; 23; 4; 11; 16; 23; 4; 11; 16; 23; 4; 11; 16; 23;
   6; 10; 15; 21; 6; 10; 15; 21; 6; 10; 15; 21; 6; 10; 15; 21].

Definition state : Type := (Z * Z * Z * Z)%type.

Definition init : state := (0x67452301, 0xefcdab89, 0x98badcfe, 0x10325476).

Definition round (M : list Z) (st : state) (i : nat) : state :=
  let '(a, b, c, d) := st in
  let iz := Z.of_nat i in
  let '(f, g) :=
    if iz <? 16 then (Z.lor (Z.land b c) (Z.land (Word.not b) d), iz)
    else if iz <? 32 then
      (Z.lor (Z.land d b) (Z.land (Word.not d) c), (5 * iz + 1) mod 16)
    else if iz <? 48 then (Z.lxor b (Z.lxor c d), (3 * iz + 5) mod 16)
    else (Z.lxor c (Z.lor b (Word.not d)), (7 * iz) mod 16) in
  let f' := Word.add (Word.add (Word.add f a) (nth i K 0))
                     (nth (Z.to_nat g) M 0) in
  (d, Word.add b (Word.rotl f' (nth i S 0)), b, c).

Definition block (st : state) (blk : list Z) : state :=
  let M := Pad.words Word.of_le 16 blk in
  let '(a, b, c, d) := fold_left (round M) (seq 0 64) st in
  let '(a0, b0, c0, d0) := st in
  (Word.add a0 a, Word.add b0 b, Word.add c0 c, Word.add d0 d).

(** [md5.Sum]: the 16 digest bytes. *)
Definition sum (msg : list byte) : list Z :=
  let '(a, b, c, d) :=
    fold_left block (Pad.split (Pad.pad Pad.len_le msg)) init in
  Word.bytes_le a ++ Word.bytes_le b ++ Word.bytes_le c ++ Word.bytes_le d.

Definition BlockSize : nat := 64.

End MD5.

(* ================================================================== *)
(** ** crypto/sha1 *)

Module SHA1.

Definition state : Type := (Z * Z * Z * Z * Z)%type.

Definition init : state :=
  (0x67452301, 0xEFCDAB89, 0x98BADCFE, 0x10325476, 0xC3D2E1F0).

(** The schedule is kept newest-first: [w] holds W[t-1], W[t-2], ... *)
Definition extend (w : list Z) (_ : nat) : list Z :=
  Word.rotl (Z.lxor (nth 2 w 0) (Z.lxor (nth 7 w 0)
              (Z.lxor (nth 13 w 0) (nth 15 w 0)))) 1 :: w.

Definition schedule (blk : list Z) : list Z :=
  rev (fold_left extend (seq 16 64) (rev (Pad.words Word.of_be 16 blk))).

Definition round (W : list Z) (st : state) (t : nat) : state :=
  let '(a, b, c, d, e) := st in
  let tz := Z.of_nat t in
  let '(f, k) :=
    if tz <? 20 then
      (Z.lor (Z.land b c) (Z.land (Word.not b) d), 0x5A827999)
    else if tz <? 40 then (Z.lxor b (Z.lxor c d), 0x6ED9EBA1)
    else if tz <? 60 then
      (Z.lor (Z.land b c) (Z.lor (Z.land b d) (Z.land c d)), 0x8F1BBCDC)
    else (Z.lxor b (Z.lxor c d), 0xCA62C1D6) in
  let tmp := Word.add (Word.add (Word.add (Word.add (Word.rotl a 5) f) e) k)
                      (nth t W 0) in
  (tmp, a, Word.rotl b 30, c, d).

Definition block (st : state) (blk : list Z) : state :=
  let W := schedule blk in
  let '(a, b, c, d, e) := fold_left (round W) (seq 0 80) st in
  let '(a0, b0, c0, d0, e0) := st in
  (Word.add a0 a, Word.add b0 b, Word.add c0 c, Word.add d0 d,
   Word.add e0 e).

(** [sha1.Sum]: the 20 digest bytes. *)
Definition sum (msg : list byte) : list Z :=
  let '(a, b, c, d, e) :=
    fold_left block (Pad.split (Pad.pad Pad.len_be msg)) init in
  Word.bytes_be a ++ Word.bytes_be b ++ Word.bytes_be c ++
  Word.bytes_be d ++ Word.bytes_be e.

Definition BlockSize : nat := 64.

End SHA1.

(* ================================================================== *)
(** ** crypto/sha256 *)

Module SHA256.

(** The round constants are the first 32 bits of the fractional parts of
    the cube roots of the first 64 primes: the integer cube root of
    [p * 2^96], found by bisection, reduced modulo [2^32]. *)
Definition primes : list Z :=
  [2; 3; 5; 7; 11; 13; 17; 19; 23; 29; 31; 37; 41; 43; 47; 53;
   59; 61; 67; 71; 73; 79; 83; 89; 97; 101; 103; 107; 109; 113; 127; 131;
   137; 139; 149; 151; 157; 163; 167; 173; 179; 181; 191; 193; 197; 199;
   211; 223; 227; 229; 233; 239; 241; 251; 257; 263; 269; 271; 277; 281;
   283; 293; 307; 311].

Fixpoint cube_root (fuel : nat) (lo hi n : Z) : Z :=
  match fuel with
  | O => lo
  | S fuel' =>
      let mid := (lo + hi) / 2 in
      if mid * mid * mid <=? n then cube_root fuel' mid hi n
      else cube_root fuel' lo mid n
  end.

Definition K : list Z :=
  Eval vm_compute in
    map (fun p => cube_root 40 0 (2 ^ 36) (p * 2 ^ 96) mod 2 ^ 32) primes.

Definition state : Type := (Z * Z * Z * Z * Z * Z * Z * Z)%type.

Definition init : state :=
  (0x6a09e667, 0xbb67ae85, 0x3c6ef372, 0xa54ff53a,
   0x510e527f, 0x9b05688c, 0x1f83d9ab, 0x5be0cd19).

Definition xor3 (x y z : Z) : Z := Z.lxor x (Z.lxor y z).

(** Newest-first schedule, as in [SHA1.extend]. *)
Definition extend (w : list Z) (_ : nat) : list Z :=
  let w2 := nth 1 w 0 in
  let w15 := nth 14 w 0 in
  let s0 := xor3 (Word.rotr w15 7) (Word.rotr w15 18) (Z.shiftr w15 3) in
  let s1 := xor3 (Word.rotr w2 17) (Word.rotr w2 19) (Z.shiftr w2 10) in
  Word.add (Word.add (Word.add (nth 15 w 0) s0) (nth 6 w 0)) s1 :: w.

Definition schedule (blk : list Z) : list Z :=
  rev (fold_left extend (seq 16 48) (rev (Pad.words Word.of_be 16 blk))).

Definition round (W : list Z) (st : state) (t : nat) : state :=
  let '(a, b, c, d, e, f, g, h) := st in
  let S1 := xor3 (Word.rotr e 6) (Word.rotr e 11) (Word.rotr e 25) in
  let ch := Z.lxor (Z.land e f) (Z.land (Word.not e) g) in
  let t1 := Word.add (Word.add (Word.add (Word.add h S1) ch) (nth t K 0))
                     (nth t W 0) in
  let S0 := xor3 (Word.rotr a 2) (Word.rotr a 13) (Word.rotr a 22) in
  let maj := xor3 (Z.land a b) (Z.land a c) (Z.land b c) in
  let t2 := Word.add S0 maj in
  (Word.add t1 t2, a, b, c, Word.add d t1, e, f, g).

Definition block (st : state) (blk : list Z) : state :=
  let W := schedule blk in
  let '(a, b, c, d, e, f, g, h) := fold_left (round W) (seq 0 64) st in
  let '(a0, b0, c0, d0, e0, f0, g0, h0) := st in
  (Word.add a0 a, Word.add b0 b, Word.add c0 c, Word.add d0 d,
   Word.add e0 e, Word.add f0 f, Word.add g0 g, Word.add h0 h).

(** [sha256.Sum256]: the 32 digest bytes. *)
Definition sum (msg : list byte) : list Z :=
  let '(a, b, c, d, e, f, g, h) :=
    fold_left block (Pad.split (Pad.pad Pad.len_be msg)) init in
  Word.bytes_be a ++ Word.bytes_be b ++ Word.bytes_be c ++
  Word.bytes_be d ++ Word.bytes_be e ++ Word.bytes_be f ++
  Word.bytes_be g ++ Word.bytes_be h.

Definition BlockSize : nat := 64.

End SHA256.

(* ================================================================== *)
(** ** fmt: the [%x] verb *)

Module Fmt.

Definition hexdigit (d : Z) : byte :=
  if d <? 10 then ascii_of_N (Z.to_N (48 + d))
  else ascii_of_N (Z.to_N (87 + d)).

(** [%x] on a byte slice: two lowercase digits per byte. *)
Definition hex_bytes (bs : list Z) : gostring :=
  flat_map (fun b => [hexdigit (b / 16); hexdigit (b mod 16)]) bs.

(** [%x] on an unsigned integer: lowercase digits, most significant
    first, no leading zeros; [0] prints as one digit. *)
Fixpoint hex_digits (fuel : nat) (u : Z) (acc : gostring) : gostring :=
  match fuel with
  | O => acc
  | S fuel' =>
      let acc' := hexdigit (u mod 16) :: acc in
      if u / 16 =? 0 then acc' else hex_digits fuel' (u / 16) acc'
  end.

Definition hex_uint32 (u : Z) : gostring := hex_digits 8 u [].

End Fmt.

(* ================================================================== *)
(** ** os: what the package observes of the file system *)

Record FileInfo : Type := mkFileInfo {
  IsDir : bool;
  Size : Z
}.

(** How the byte stream of an open file ends: clean end of stream
    ([io.EOF]) or any other read error. *)
Inductive ReadEnd : Type := EOF | IOError.

(** A path that [os.Open] opens: the result of [Stat] on the handle
    ([None]: [Stat] returns an error), the bytes successive reads deliver,
    and the way the stream ends after them. *)
Record OpenFile : Type := mkOpenFile {
  Stat : option FileInfo;
  readable : list byte;
  rend : ReadEnd
}.

Record World : Type := mkWorld {
  (** [os.Open]; [None]: the open fails. *)
  fs : gostring -> option OpenFile;
  (** The bytes [os.Stdin] delivers. *)
  stdin : list byte;
  (** [os.Create]: [true] when creating that path fails. *)
  create_fails : gostring -> bool;
  (** [true] when the [k]-th [WriteString] on the output fails
      ([0]: the header line). *)
  write_fails : nat -> bool;
  (** [time.Now().UTC().Format(time.RFC3339)]. *)
  now : gostring;
  (** The package variables [Version] and [Commit]. *)
  Version : gostring;
  Commit : gostring
}.

(* ================================================================== *)
(** ** bufio.Reader *)

Record Reader : Type := mkReader {
  pending : list byte;
  ending : ReadEnd
}.

(** [bufio.NewReader(file)].  A nil [*os.File] (the open failed and its
    error was dropped) answers every read with an error. *)
Definition NewReader (file : option OpenFile) : Reader :=
  match file with
  | Some f => mkReader (readable f) (rend f)
  | None => mkReader [] IOError
  end.

(** [reader.Read(buf)] for [len(buf) = n]: the bytes copied into [buf],
    the error, and the reader afterwards.  With an empty [buf] nothing is
    consumed and no error is reported.  Otherwise up to [n] pending bytes
    are delivered; the stream's ending is reported once none are left.
    (A short read of the underlying file can make a chunk smaller; the
    bytes delivered in total are the same.) *)
Definition Read (n : nat) (r : Reader)
  : list byte * option ReadEnd * Reader :=
  match n with
  | O => ([], None, r)
  | _ =>
      match pending r with
      | [] => ([], Some (ending r), r)
      | _ => (firstn n (pending r), None,
              mkReader (skipn n (pending r)) (ending r))
      end
  end.

(* ================================================================== *)
(** ** bufio.Scanner with [bufio.ScanLines] *)

Definition newline : byte := "010"%char.
Definition carriage_return : byte := "013"%char.

Definition MaxScanTokenSize : Z := 64 * 1024.

(** Cut the input at every newline; a last line without newline counts
    when it is not empty. [cur] is the line read so far. *)
Fixpoint raw_lines (data cur : list byte) : list (list byte) :=
  match data with
  | [] => match cur with [] => [] | _ => [cur] end
  | c :: rest =>
      if Ascii.eqb c newline then cur :: raw_lines rest []
      else raw_lines rest (cur ++ [c])
  end.

(** [dropCR]. *)
Definition dropCR (l : list byte) : list byte :=
  match rev l with
  | c :: r => if Ascii.eqb c carriage_return then rev r else l
  | [] => l
  end.

(** A line that does not fit the scanner's buffer ends the scan
    ([ErrTooLong]; the parser never looks at [scanner.Err]). *)
Fixpoint fitting (ls : list (list byte)) : list (list byte) :=
  match ls with
  | [] => []
  | l :: ls' =>
      if Z.of_nat (length l) <? MaxScanTokenSize then l :: fitting ls'
      else []
  end.

(** The values of [scanner.Text()] over the successful [scanner.Scan()]
    calls. *)
Definition ScanLines (data : list byte) : list gostring :=
  map dropCR (fitting (raw_lines data [])).

(* ================================================================== *)
(** ** regexp: the fragment the parser's four patterns use *)

Module Regexp.

Definition is_digit (c : byte) : bool :=
  (48 <=? byte_val c) && (byte_val c <=? 57).
Definition is_upper (c : byte) : bool :=
  (65 <=? byte_val c) && (byte_val c <=? 90).
Definition is_lower (c : byte) : bool :=
  (97 <=? byte_val c) && (byte_val c <=? 122).

(** [\w]: [[0-9A-Za-z_]]. *)
Definition is_word (c : byte) : bool :=
  is_digit c || is_upper c || is_lower c || Ascii.eqb c "_"%char.

(** [[\w\.]]. *)
Definition is_word_dot (c : byte) : bool :=
  is_word c || Ascii.eqb c "."%char.

Inductive Class : Type := W | WDot.

Definition in_class (k : Class) : byte -> bool :=
  match k with W => is_word | WDot => is_word_dot end.

Inductive Quant : Type := Plus | Exactly (n : nat).

(** A pattern [^ item ... item $]; every class item is a capturing
    group. *)
Inductive Item : Type :=
| Lit (s : gostring)
| Group (k : Class) (q : Quant).

Definition Pattern : Type := list Item.

Fixpoint has_prefix (p s : gostring) : bool :=
  match p, s with
  | [], _ => true
  | a :: p', b :: s' => Ascii.eqb a b && has_prefix p' s'
  | _ :: _, [] => false
  end.

(** Length of the longest prefix of [s] inside the class. *)
Fixpoint run (f : byte -> bool) (s : gostring) : nat :=
  match s with
  | c :: s' => if f c then S (run f s') else O
  | [] => O
  end.

(** Greedy [+]: take [k] characters, then [k-1], ... down to one, until
    the rest of the pattern matches. *)
Fixpoint backtrack (k : nat) (rest : gostring -> option (list gostring))
  (s : gostring) : option (list gostring) :=
  match k with
  | O => None
  | S k' =>
      match rest (skipn k s) with
      | Some caps => Some (firstn k s :: caps)
      | None => backtrack k' rest s
      end
  end.

(** The captured groups of the match of the whole of [s], in order. *)
Fixpoint submatches (re : Pattern) (s : gostring)
  : option (list gostring) :=
  match re with
  | [] => match s with [] => Some [] | _ => None end
  | Lit l :: re' =>
      if has_prefix l s then submatches re' (skipn (length l) s) else None
  | Group k (Exactly n) :: re' =>
      if (length (firstn n s) =? n)%nat && forallb (in_class k) (firstn n s)
      then option_map (cons (firstn n s)) (submatches re' (skipn n s))
      else None
  | Group k Plus :: re' =>
      backtrack (run (in_class k) s) (submatches re') s
  end.

(** [re.MatchString(s)]. *)
Definition MatchString (re : Pattern) (s : gostring) : bool :=
  match submatches re s with Some _ => true | None => false end.

(** [re.FindStringSubmatch(s)]: the whole match, then the groups;
    [nil] (here the empty list) when there is no match. *)
Definition FindStringSubmatch (re : Pattern) (s : gostring)
  : list gostring :=
  match submatches re s with Some caps => s :: caps | None => [] end.

End Regexp.

(* ================================================================== *)
(** ** package sfv *)

Inductive ChecksumType : Type :=
| TypeUnknown
| TypeCRC32
| TypeMD5
| TypeSHA1
| TypeSHA256.

Inductive ChecksumStatus : Type :=
| StatusUnknown
| StatusOK
| StatusCheckSumOK
| StatusCheckSumNoMatch
| StatusFailedCheckSum
| StatusNotFound
| StatusNotFile
| StatusStatFailed.

Record ChecksumFile : Type := mkChecksumFile {
  ChecksumType_ : ChecksumType;
  Status : ChecksumStatus;
  Filename : gostring;
  Filesize : Z;
  Checksum : gostring;
  ChecksumWant : gostring
}.

Definition set_Status (cf : ChecksumFile) (s : ChecksumStatus) :=
  mkChecksumFile (ChecksumType_ cf) s (Filename cf) (Filesize cf)
                 (Checksum cf) (ChecksumWant cf).

Definition set_Filesize (cf : ChecksumFile) (n : Z) :=
  mkChecksumFile (ChecksumType_ cf) (Status cf) (Filename cf) n
                 (Checksum cf) (ChecksumWant cf).

Definition set_Checksum (cf : ChecksumFile) (c : gostring) :=
  mkChecksumFile (ChecksumType_ cf) (Status cf) (Filename cf) (Filesize cf)
                 c (ChecksumWant cf).

(** The zero value of [ChecksumFile] ([var checksumFile ChecksumFile]). *)
Definition zeroChecksumFile : ChecksumFile :=
  mkChecksumFile TypeUnknown StatusUnknown [] 0 [] [].

Definition ChecksumStatus_eqb (a b : ChecksumStatus) : bool :=
  match a, b with
  | StatusUnknown, StatusUnknown
  | StatusOK, StatusOK
  | StatusCheckSumOK, StatusCheckSumOK
  | StatusCheckSumNoMatch, StatusCheckSumNoMatch
  | StatusFailedCheckSum, StatusFailedCheckSum
  | StatusNotFound, StatusNotFound
  | StatusNotFile, StatusNotFile
  | StatusStatFailed, StatusStatFailed => true
  | _, _ => false
  end.

(** [==] on Go strings. *)
Fixpoint gostring_eqb (a b : gostring) : bool :=
  match a, b with
  | [], [] => true
  | x :: a', y :: b' => Ascii.eqb x y && gostring_eqb a' b'
  | _, _ => false
  end.

(** [int64] addition. *)
Definition add64 (x y : Z) : Z := (x + y + 2 ^ 63) mod 2 ^ 64 - 2 ^ 63.

Definition StringToType (t : gostring) : ChecksumType :=
  if gostring_eqb t (str "crc32") then TypeCRC32
  else if gostring_eqb t (str "md5") then TypeMD5
  else if gostring_eqb t (str "sha1") then TypeSHA1
  else if gostring_eqb t (str "sha256") then TypeSHA256
  else TypeUnknown.

(** *** hasherInfo *)

Inductive HashAlg : Type := AlgMD5 | AlgSHA1 | AlgSHA256.

(** A [hash.Hash]: the algorithm and the bytes written so far; [Sum]
    digests them. *)
Record Hash : Type := mkHash {
  alg : HashAlg;
  written : list byte
}.

Definition Hash_Write (h : Hash) (p : list byte) : Hash :=
  mkHash (alg h) (written h ++ p).

Definition Hash_Sum (h : Hash) : list Z :=
  match alg h with
  | AlgMD5 => MD5.sum (written h)
  | AlgSHA1 => SHA1.sum (written h)
  | AlgSHA256 => SHA256.sum (written h)
  end.

(** [buf] is kept by its length; [hash32] is the running CRC of
    [crc32.NewIEEE()] ([BlockSize() = 1]); a nil interface is [None]. *)
Record hasherInfo : Type := mkHasher {
  buf : nat;
  hash : option Hash;
  hash32 : option Z
}.

Definition CRC32_BlockSize : nat := 1.

Definition newHasher (t : ChecksumType) : hasherInfo :=
  match t with
  | TypeCRC32 => mkHasher CRC32_BlockSize None (Some 0)
  | TypeMD5 => mkHasher MD5.BlockSize (Some (mkHash AlgMD5 [])) None
  | TypeSHA1 => mkHasher SHA1.BlockSize (Some (mkHash AlgSHA1 [])) None
  | TypeSHA256 => mkHasher SHA256.BlockSize (Some (mkHash AlgSHA256 [])) None
  | TypeUnknown => mkHasher 0 None None
  end.

(** The [switch] inside the read loop; calling [Write] through a nil
    interface panics. *)
Definition hasherWrite (t : ChecksumType) (h : hasherInfo) (p : list byte)
  : Result hasherInfo :=
  match t with
  | TypeCRC32 =>
      match hash32 h with
      | Some crc => Ret (mkHasher (buf h) (hash h) (Some (CRC32.update crc p)))
      | None => Panic
      end
  | TypeMD5 | TypeSHA1 | TypeSHA256 =>
      match hash h with
      | Some hh => Ret (mkHasher (buf h) (Some (Hash_Write hh p)) (hash32 h))
      | None => Panic
      end
  | TypeUnknown => Ret h
  end.

(** The [for] loop of [calculateChecksum]; running out of [fuel] stands
    for a loop that is still running. *)
Fixpoint readLoop (fuel : nat) (t : ChecksumType) (r : Reader)
  (h : hasherInfo) (st : ChecksumStatus)
  : Result (hasherInfo * ChecksumStatus) :=
  match fuel with
  | O => Diverges
  | S fuel' =>
      let '(p, err, r') := Read (buf h) r in
      match err with
      | Some e =>
          Ret (h, match e with IOError => StatusFailedCheckSum | EOF => st end)
      | None =>
          h' <- hasherWrite t h p ;;
          readLoop fuel' t r' h' st
      end
  end.

(** The [switch] after the loop. *)
Definition finishChecksum (cf : ChecksumFile) (h : hasherInfo)
  (st : ChecksumStatus) : Result ChecksumFile :=
  match ChecksumType_ cf with
  | TypeCRC32 =>
      match hash32 h with
      | Some crc =>
          Ret (set_Checksum (set_Status cf StatusCheckSumOK)
                            (Fmt.hex_uint32 crc))
      | None => Panic
      end
  | TypeMD5 | TypeSHA1 | TypeSHA256 =>
      match hash h with
      | Some hh =>
          Ret (set_Checksum (set_Status cf StatusCheckSumOK)
                            (Fmt.hex_bytes (Hash_Sum hh)))
      | None => Panic
      end
  | TypeUnknown => Ret (set_Status cf st)
  end.

(** Readers over a finite stream need one [Read] per pending byte and one
    more for the ending. *)
Definition enough_fuel (r : Reader) : nat := S (length (pending r)).

Definition calculateChecksum (w : World) (cf : ChecksumFile)
  : Result ChecksumFile :=
  match Status cf with
  | StatusOK =>
      let file := fs w (Filename cf) in
      let hasher := newHasher (ChecksumType_ cf) in
      let reader := NewReader file in
      '(hasher', st) <-
        readLoop (enough_fuel reader) (ChecksumType_ cf) reader hasher
                 (Status cf) ;;
      finishChecksum cf hasher' st
  | _ => Ret cf
  end.

Definition verifyChecksumFile (w : World) (cf : ChecksumFile)
  : ChecksumFile :=
  match fs w (Filename cf) with
  | None => set_Status cf StatusNotFound
  | Some file =>
      match Stat file with
      | None => set_Status cf StatusStatFailed
      | Some fileInfo =>
          if IsDir fileInfo then set_Status cf StatusNotFile
          else set_Filesize (set_Status cf StatusOK) (Size fileInfo)
      end
  end.

Definition createChecksumFile (w : World) (t : ChecksumType)
  (filename : gostring) : ChecksumFile :=
  let checksumFile := mkChecksumFile t StatusUnknown filename 0 [] [] in
  match fs w filename with
  | None => set_Status checksumFile StatusNotFound
  | Some file =>
      match Stat file with
      | None => set_Status checksumFile StatusStatFailed
      | Some fileInfo =>
          if IsDir fileInfo then set_Status checksumFile StatusNotFile
          else set_Filesize (set_Status checksumFile StatusOK) (Size fileInfo)
      end
  end.

(** *** Create *)

Definition totalFileSize (cfs : list ChecksumFile) : Z :=
  fold_left (fun acc cf => add64 acc (Filesize cf)) cfs 0.

Definition Create (w : World) (t : ChecksumType) (files : list gostring)
  : Result (list ChecksumFile) :=
  let checksumFiles := map (createChecksumFile w t) files in
  mapM (calculateChecksum w) checksumFiles.

(** *** The manifest parser *)

Import Regexp.

Definition reCrc32 : Pattern :=
  [Group WDot Plus; Lit (str " "); Group W (Exactly 8)].
Definition reMd5 : Pattern :=
  [Lit (str "MD5 ("); Group WDot Plus; Lit (str ") = "); Group W (Exactly 32)].
Definition reSha1 : Pattern :=
  [Group W (Exactly 40); Lit (str "  "); Group WDot Plus].
Definition reSha256 : Pattern :=
  [Group W (Exactly 64); Lit (str "  "); Group WDot Plus].

(** [matches[i]]. *)
Definition index (matches : list gostring) (i : nat) : gostring :=
  nth i matches [].

(** The classification of one line: algorithm, filename, wanted
    checksum; [None] for the final [else] (unknown checksum type). *)
Definition classifyLine (line : gostring)
  : option (ChecksumType * gostring * gostring) :=
  if MatchString reCrc32 line then
    let matches := FindStringSubmatch reCrc32 line in
    Some (TypeCRC32, index matches 1, index matches 2)
  else if MatchString reMd5 line then
    let matches := FindStringSubmatch reMd5 line in
    Some (TypeMD5, index matches 1, index matches 2)
  else if MatchString reSha1 line then
    let matches := FindStringSubmatch reSha1 line in
    Some (TypeSHA1, index matches 2, index matches 1)
  else if MatchString reSha256 line then
    let matches := FindStringSubmatch reSha256 line in
    Some (TypeSHA256, index matches 2, index matches 1)
  else None.

(** The body of the [for scanner.Scan()] loop over the remaining lines;
    [line[0:1]] on an empty line is a slice out of range. *)
Fixpoint parseLines (w : World) (lines : list gostring)
  (total : Z) (checksumFiles : list ChecksumFile)
  : Result (Z * list ChecksumFile) :=
  match lines with
  | [] => Ret (total, checksumFiles)
  | line :: rest =>
      match line with
      | [] => Panic
      | c :: _ =>
          if gostring_eqb [c] (str ";") then
            parseLines w rest total checksumFiles
          else
            match classifyLine line with
            | None => parseLines w rest total checksumFiles
            | Some (t, filename, want) =>
                let checksumFile :=
                  verifyChecksumFile w
                    (mkChecksumFile t StatusUnknown filename 0 [] want) in
                parseLines w rest (add64 total (Filesize checksumFile))
                           (checksumFiles ++ [checksumFile])
            end
      end
  end.

Definition parseSfvFile (w : World) (filename : gostring)
  : Result (Z * list ChecksumFile) :=
  input <- (if gostring_eqb filename [] then Ret (stdin w)
            else match fs w filename with
                 | None => Fatal
                 | Some file => Ret (readable file)
                 end) ;;
  parseLines w (ScanLines input) 0 [].

(** *** Verify *)

(** The comparison after hashing. *)
Definition compareChecksum (cf : ChecksumFile) : ChecksumFile :=
  if ChecksumStatus_eqb (Status cf) StatusCheckSumOK &&
     negb (gostring_eqb (Checksum cf) (ChecksumWant cf))
  then set_Status cf StatusCheckSumNoMatch
  else cf.

Definition verifyOne (w : World) (cf : ChecksumFile) : Result ChecksumFile :=
  cf' <- calculateChecksum w cf ;;
  Ret (compareChecksum cf').

Definition Verify (w : World) (file : gostring)
  : Result (list ChecksumFile) :=
  '(_, checksumFiles) <- parseSfvFile w file ;;
  mapM (verifyOne w) checksumFiles.

(** *** WriteToFile *)

Definition header (w : World) : gostring :=
  str "; Generated by gosfv version " ++ Version w ++ str "(" ++
  Commit w ++ str ") at " ++ now w ++ [newline].

(** The line [WriteToFile] formats for an entry; [None] when the
    [switch] has no case for its type. *)
Definition formatLine (cf : ChecksumFile) : option gostring :=
  match ChecksumType_ cf with
  | TypeCRC32 => Some (Filename cf ++ str " " ++ Checksum cf ++ [newline])
  | TypeMD5 =>
      Some (str "MD5 (" ++ Filename cf ++ str ") = " ++ Checksum cf
            ++ [newline])
  | TypeSHA1 | TypeSHA256 =>
      Some (Checksum cf ++ str "  " ++ Filename cf ++ [newline])
  | TypeUnknown => None
  end.

(** The loop over the entries: [k] counts the [WriteString] calls made,
    [out] is the text written so far. *)
Fixpoint writeEntries (w : World) (cfs : list ChecksumFile) (k : nat)
  (out : gostring) : Result gostring :=
  match cfs with
  | [] => Ret out
  | cf :: rest =>
      if ChecksumStatus_eqb (Status cf) StatusCheckSumOK then
        match formatLine cf with
        | Some line =>
            if write_fails w k then Fatal
            else writeEntries w rest (S k) (out ++ line)
        | None => writeEntries w rest k out
        end
      else writeEntries w rest k out
  end.

(** The text that reaches the output. *)
Definition WriteToFile (w : World) (checksumFiles : list ChecksumFile)
  (filename : gostring) : Result gostring :=
  if negb (gostring_eqb filename []) && create_fails w filename then Fatal
  else
    let out := if write_fails w 0 then [] else header w in
    writeEntries w checksumFiles 1 out.


(* ================================================================== *)
(** ** Vocabulary of the statements *)

(** The terminal failure states. *)
Definition terminalFailure (s : ChecksumStatus) : bool :=
  match s with
  | StatusNotFound | StatusNotFile | StatusStatFailed
  | StatusFailedCheckSum => true
  | _ => false
  end.

(** The digest string of a whole byte sequence, per algorithm, built from
    the library functions the way [calculateChecksum] formats them. *)
Definition digest (t : ChecksumType) (data : list byte) : gostring :=
  match t with
  | TypeCRC32 => Fmt.hex_uint32 (CRC32.checksum data)
  | TypeMD5 => Fmt.hex_bytes (MD5.sum data)
  | TypeSHA1 => Fmt.hex_bytes (SHA1.sum data)
  | TypeSHA256 => Fmt.hex_bytes (SHA256.sum data)
  | TypeUnknown => []
  end.

(** The bytes reading [name] delivers before the stream ends. *)
Definition streamed (w : World) (name : gostring) : list byte :=
  match fs w name with
  | Some f => readable f
  | None => []
  end.

(** The number of characters the parser's pattern for [t] asks of the
    checksum field. *)
Definition digestLen (t : ChecksumType) : nat :=
  match t with
  | TypeCRC32 => 8
  | TypeMD5 => 32
  | TypeSHA1 => 40
  | TypeSHA256 => 64
  | TypeUnknown => 0
  end.

(** A hexadecimal character, either case. *)
Definition is_hex (c : byte) : bool :=
  is_digit c
  || ((97 <=? byte_val c) && (byte_val c <=? 102))
  || ((65 <=? byte_val c) && (byte_val c <=? 70)).

(** A manifest line for [t], without its newline, in the layout
    [WriteToFile] prints and the parser's pattern for [t] reads. *)
Definition renderLine (t : ChecksumType) (filename sum : gostring)
  : gostring :=
  match t with
  | TypeCRC32 => filename ++ str " " ++ sum
  | TypeMD5 => str "MD5 (" ++ filename ++ str ") = " ++ sum
  | TypeSHA1 | TypeSHA256 => sum ++ str "  " ++ filename
  | TypeUnknown => []
  end.

(** A readable regular file: it opens, [Stat] reports a non-directory,
    and its stream ends with a clean end of stream. *)
Definition readableRegular (w : World) (name : gostring) : Prop :=
  exists f fi,
    fs w name = Some f /\ Stat f = Some fi /\ IsDir fi = false /\
    rend f = EOF.

(** The world after the text [out] has reached the manifest: standard
    input for the empty path (a pipe from standard output), a regular
    file at [path] otherwise. *)
Definition withManifest (w : World) (path out : gostring) : World :=
  if gostring_eqb path [] then
    mkWorld (fs w) out (create_fails w) (write_fails w) (now w)
            (Version w) (Commit w)
  else
    mkWorld (fun name =>
               if gostring_eqb name path then
                 Some (mkOpenFile
                         (Some (mkFileInfo false (Z.of_nat (length out))))
                         out EOF)
               else fs w name)
            (stdin w) (create_fails w) (write_fails w) (now w)
            (Version w) (Commit w).

(** What verification recovers of a created entry. *)
Definition recovered (created verified : ChecksumFile) : Prop :=
  ChecksumType_ verified = ChecksumType_ created /\
  Filename verified = Filename created /\
  ChecksumWant verified = Checksum created /\
  Checksum verified = Checksum created /\
  Status verified = StatusCheckSumOK.

(** The round trip: [Create] over [files], [WriteToFile] to [path],
    [Verify] of what was written, every created entry recovered. *)
Definition RoundTrip (w : World) (t : ChecksumType) (files : list gostring)
  (path : gostring) : Prop :=
  exists created out verified,
    Create w t files = Ret created /\
    WriteToFile w created path = Ret out /\
    Verify (withManifest w path out) path = Ret verified /\
    Forall2 recovered created verified.

(** A name the parser's filename group accepts: [[\w\.]+]. *)
Definition plainName (name : gostring) : Prop :=
  name <> [] /\ forallb is_word_dot name = true.

Definition statuses (r : Result (list ChecksumFile))
  : Result (list ChecksumStatus) :=
  cfs <- r ;; Ret (map Status cfs).

(** The status the read loop leaves for a stream ending [e]. *)
Definition statusAfter (e : ReadEnd) (st : ChecksumStatus)
  : ChecksumStatus :=
  match e with IOError => StatusFailedCheckSum | EOF => st end.

(** What a successful match says of the subject: the literals and the
    captured groups, in order, make up the whole of it, and every group
    lies in its class with the length its quantifier asks. *)
Fixpoint shaped (re : Pattern) (caps : list gostring) (s : gostring)
  : Prop :=
  match re with
  | [] => caps = [] /\ s = []
  | Lit l :: re' => exists s', s = l ++ s' /\ shaped re' caps s'
  | Group k q :: re' =>
      exists c caps' s',
        caps = c :: caps' /\ s = c ++ s' /\
        forallb (in_class k) c = true /\
        match q with
        | Plus => c <> []
        | Exactly n => length c = n
        end /\
        shaped re' caps' s'
  end.

(** The classification with the two calls per pattern folded into one
    match. *)
Definition classifyBy (line : gostring)
  : option (ChecksumType * gostring * gostring) :=
  match submatches reCrc32 line with
  | Some caps => Some (TypeCRC32, nth 0 caps [], nth 1 caps [])
  | None =>
      match submatches reMd5 line with
      | Some caps => Some (TypeMD5, nth 0 caps [], nth 1 caps [])
      | None =>
          match submatches reSha1 line with
          | Some caps => Some (TypeSHA1, nth 1 caps [], nth 0 caps [])
          | None =>
              match submatches reSha256 line with
              | Some caps => Some (TypeSHA256, nth 1 caps [], nth 0 caps [])
              | None => None
              end
          end
      end
  end.

(** What the File Probe is to leave in an entry for [path]: the status
    by the way opening and [Stat] turn out, the size [Stat] reports for a
    file and [0] otherwise. *)
Definition probeOutcome (w : World) (path : gostring) (cf : ChecksumFile)
  : Prop :=
  (fs w path = None ->
   Status cf = StatusNotFound /\ Filesize cf = 0) /\
  (forall f, fs w path = Some f -> Stat f = None ->
   Status cf = StatusStatFailed /\ Filesize cf = 0) /\
  (forall f fi, fs w path = Some f -> Stat f = Some fi -> IsDir fi = true ->
   Status cf = StatusNotFile /\ Filesize cf = 0) /\
  (forall f fi, fs w path = Some f -> Stat f = Some fi -> IsDir fi = false ->
   Status cf = StatusOK /\ Filesize cf = Size fi).

(** What the parser leaves in an entry: an algorithm, and a status the
    File Probe assigns. *)
Definition probed (e : ChecksumFile) : Prop :=
  ChecksumType_ e <> TypeUnknown /\
  In (Status e) [StatusOK; StatusNotFound; StatusNotFile; StatusStatFailed].

(** How [Verify] treats one parsed entry [e], with [h] the entry after
    hashing and [r] the entry returned. *)
Definition verified (w : World) (e h r : ChecksumFile) : Prop :=
  calculateChecksum w e = Ret h /\
  (Status r = StatusCheckSumNoMatch <->
   Status h = StatusCheckSumOK /\ Checksum h <> ChecksumWant h) /\
  (Status r = StatusCheckSumNoMatch ->
   Checksum r = digest (ChecksumType_ e) (streamed w (Filename e)) /\
   ChecksumWant r = ChecksumWant e) /\
  (Status r <> StatusCheckSumNoMatch -> r = h).

(** *** The round trip *)

(** The longest path the operating system opens. *)
Definition PATH_MAX : Z := 4096.

Definition shortName (name : gostring) : Prop :=
  Z.of_nat (length name) <= PATH_MAX.

Definition noNewline (s : gostring) : bool :=
  forallb (fun c => negb (Ascii.eqb c newline)) s.

(** The header without its newline. *)
Definition headerLine (w : World) : gostring :=
  str "; Generated by gosfv version " ++ Version w ++ str "(" ++
  Commit w ++ str ") at " ++ now w.

(** The header is one line the scanner can hold. *)
Definition headerFits (w : World) : Prop :=
  noNewline (headerLine w) = true /\
  Z.of_nat (length (headerLine w)) < MaxScanTokenSize.

(** The output can be created and every write to it succeeds. *)
Definition writable (w : World) (path : gostring) : Prop :=
  (forall k, write_fails w k = false) /\ create_fails w path = false.

(** The size [Stat] reports for [name]. *)
Definition sizeOf (w : World) (name : gostring) : Z :=
  match fs w name with
  | Some f => match Stat f with Some fi => Size fi | None => 0 end
  | None => 0
  end.

(** The entry [Create] returns for a readable regular file, the line
    [WriteToFile] prints for it, and the entry [Verify] returns for that
    line. *)
Definition createdOf (w : World) (t : ChecksumType) (name : gostring)
  : ChecksumFile :=
  mkChecksumFile t StatusCheckSumOK name (sizeOf w name)
                 (digest t (streamed w name)) [].

Definition lineOf (w : World) (t : ChecksumType) (name : gostring)
  : gostring :=
  renderLine t name (digest t (streamed w name)).

Definition verifiedOf (w : World) (t : ChecksumType) (name : gostring)
  : ChecksumFile :=
  mkChecksumFile t StatusCheckSumOK name (sizeOf w name)
                 (digest t (streamed w name)) (digest t (streamed w name)).

(** A name read back in [w'] after it was hashed in [w]: plain, regular
    and unchanged in [w'], with a digest the pattern of [t] takes. *)
Definition readBack (w w' : World) (t : ChecksumType) (name : gostring)
  : Prop :=
  plainName name /\ readableRegular w' name /\
  fs w' name = fs w name /\
  length (digest t (streamed w name)) = digestLen t.

(** *** Sample worlds *)

(** A regular file holding [data]. *)
Definition regular (data : list byte) : OpenFile :=
  mkOpenFile (Some (mkFileInfo false (Z.of_nat (length data)))) data EOF.

(** A file system with the single path [name]. *)
Definition onlyFile (name : gostring) (f : OpenFile)
  : gostring -> option OpenFile :=
  fun n => if gostring_eqb n name then Some f else None.

(** A file system with two regular files. *)
Definition twoFiles : gostring -> option OpenFile :=
  fun n =>
    if gostring_eqb n (str "a.txt") then Some (regular (str "abc"))
    else if gostring_eqb n (str "b.bin") then Some (regular [])
    else None.

(** A world where creating and writing the output never fail. *)
Definition quiet (files : gostring -> option OpenFile) (input : list byte)
  : World :=
  mkWorld files input (fun _ => false) (fun _ => false)
          (str "2021-03-01T12:00:00Z") (str "v0.1") (str "abc1234").

(* ================================================================== *)
(** ** The rest of the package and its caller *)

(** [StatusTypeToString]; the [default] branch serves [StatusUnknown]. *)
Definition StatusTypeToString (s : ChecksumStatus) : gostring :=
  match s with
  | StatusOK => str "OK"
  | StatusCheckSumOK => str "Checksum OK"
  | StatusCheckSumNoMatch => str "Checksum doesn't match"
  | StatusFailedCheckSum => str "Checksum calculation failed"
  | StatusNotFound => str "File not found"
  | StatusNotFile => str "File not a file"
  | StatusStatFailed => str "File stat failed"
  | StatusUnknown => str "Unknown"
  end.

(** *** The [create] command

    [typeValue] and [file] are the values of the flags [type] and
    [file]; [args] are the file arguments. *)

(** [createCmd.Args]: the error, or [None] for [nil]. *)
Definition createArgs (typeValue : gostring) (args : list gostring)
  : option gostring :=
  if (length args <? 1)%nat then
    Some (str "Need at least one file argument")
  else
    match StringToType typeValue with
    | TypeUnknown => Some (str "Unknown algorithm: " ++ typeValue)
    | _ => None
    end.

(** [createCmd.Run]: the text that reaches the output. *)
Definition createRun (w : World) (typeValue file : gostring)
  (args : list gostring) : Result gostring :=
  let checksumType := StringToType typeValue in
  checksumFiles <- Create w checksumType args ;;
  WriteToFile w checksumFiles file.

(** The command as the framework runs it: [Run] only after [Args] has
    returned [nil]; otherwise the error is reported. *)
Definition createCmd (w : World) (typeValue file : gostring)
  (args : list gostring) : Result (gostring + gostring) :=
  match createArgs typeValue args with
  | Some err => Ret (inl err)
  | None => out <- createRun w typeValue file args ;; Ret (inr out)
  end.

(** *** Vocabulary of the further statements *)

(** The path opens, [Stat] succeeds and reports no directory. *)
Definition opensAsFile (w : World) (name : gostring) : bool :=
  match fs w name with
  | Some f =>
      match Stat f with
      | Some fi => negb (IsDir fi)
      | None => false
      end
  | None => false
  end.

(** The selector strings of the four algorithms. *)
Definition selectors : list gostring :=
  [str "crc32"; str "md5"; str "sha1"; str "sha256"].

(** The four patterns, in the order the parser tries them. *)
Definition patterns : list Pattern := [reCrc32; reMd5; reSha1; reSha256].

(** The entries [WriteToFile] prints a line for. *)
Definition printable (cf : ChecksumFile) : bool :=
  ChecksumStatus_eqb (Status cf) StatusCheckSumOK &&
  match ChecksumType_ cf with TypeUnknown => false | _ => true end.

(** The line of a printable entry, with its newline. *)
Definition entryLine (cf : ChecksumFile) : gostring :=
  renderLine (ChecksumType_ cf) (Filename cf) (Checksum cf) ++ [newline].

(** The bytes of the manifest [parseSfvFile] scans; [None] when the
    manifest cannot be opened. *)
Definition manifestInput (w : World) (file : gostring)
  : option (list byte) :=
  if gostring_eqb file [] then Some (stdin w)
  else option_map readable (fs w file).

Definition isEmptyLine (line : gostring) : bool :=
  match line with [] => true | _ => false end.

(** The entry a line contributes: none for a comment and for a line no
    pattern matches, the probed entry of its fields otherwise. *)
Definition lineEntry (w : World) (line : gostring) : list ChecksumFile :=
  match line with
  | [] => []
  | c :: _ =>
      if Ascii.eqb c ";"%char then []
      else
        match classifyLine line with
        | Some (t, f, d) =>
            [verifyChecksumFile w (mkChecksumFile t StatusUnknown f 0 [] d)]
        | None => []
        end
  end.

(** [[0-9a-f]]: the characters [%x] prints. *)
Definition is_lower_hex (c : byte) : bool :=
  is_digit c || ((97 <=? byte_val c) && (byte_val c <=? 102)).

(** What holds of every entry the parser returns. *)
Definition parsedEntry (e : ChecksumFile) : Prop :=
  probed e /\
  plainName (Filename e) /\
  forallb is_word (ChecksumWant e) = true /\
  length (ChecksumWant e) = digestLen (ChecksumType_ e) /\
  Checksum e = [].

(** What holds of every entry [Verify] returns. *)
Definition verifiedEntry (r : ChecksumFile) : Prop :=
  ChecksumType_ r <> TypeUnknown /\
  In (Status r) [StatusCheckSumOK; StatusCheckSumNoMatch; StatusNotFound;
                 StatusNotFile; StatusStatFailed] /\
  plainName (Filename r) /\
  forallb is_word (ChecksumWant r) = true /\
  length (ChecksumWant r) = digestLen (ChecksumType_ r) /\
  (Checksum r <> [] <->
   Status r = StatusCheckSumOK \/ Status r = StatusCheckSumNoMatch) /\
  (Status r = StatusCheckSumOK -> Checksum r = ChecksumWant r) /\
  (Status r = StatusCheckSumNoMatch -> Checksum r <> ChecksumWant r).

(** What holds of the entry [Create] returns for [name]. *)
Definition createdEntry (w : World) (t : ChecksumType) (name : gostring)
  (cf : ChecksumFile) : Prop :=
  ChecksumType_ cf = t /\ Filename cf = name /\ ChecksumWant cf = [] /\
  if opensAsFile w name then
    Status cf = StatusCheckSumOK /\
    Checksum cf = digest t (streamed w name) /\ Checksum cf <> []
  else
    cf = createChecksumFile w t name /\
    terminalFailure (Status cf) = true /\
    Checksum cf = [] /\ Filesize cf = 0.

(** *** The operations of the engine on one entry *)

Inductive Operation : Type := Probe | Hashing | Comparison | Writing.

(** What an operation makes of an entry: the probe and the hashing
    stage work on the entry through a pointer, the comparison is the
    [if] of [Verify], and [WriteToFile] ranges over copies of the
    entries and assigns to none of them. *)
Definition perform (w : World) (op : Operation) (e : ChecksumFile)
  : Result ChecksumFile :=
  match op with
  | Probe => Ret (verifyChecksumFile w e)
  | Hashing => calculateChecksum w e
  | Comparison => Ret (compareChecksum e)
  | Writing => Ret e
  end.


(** The entries of the engine: an entry starts as [Create] builds it
    for a path ([createChecksumFile]) or as the parser builds and probes
    it for an accepted line, and goes on through operations that
    return. *)
Inductive arises (w : World) : ChecksumFile -> Prop :=
| arises_create (t : ChecksumType) (name : gostring) :
    arises w (createChecksumFile w t name)
| arises_parse (line : gostring) (t : ChecksumType) (f d : gostring) :
    classifyLine line = Some (t, f, d) ->
    arises w (verifyChecksumFile w
                (mkChecksumFile t StatusUnknown f 0 [] d))
| arises_step (op : Operation) (e e' : ChecksumFile) :
    arises w e -> perform w op e = Ret e' -> arises w e'.

(* ================================================================== *)
(** * Properties *)

(** ** Strings and statuses *)

Lemma gostring_eqb_refl (a : gostring) : gostring_eqb a a = true.
Proof.
  induction a as [|x a IH]; simpl; [reflexivity|].
  now rewrite Ascii.eqb_refl, IH.
Qed.

Lemma gostring_eqb_eq (a b : gostring) : gostring_eqb a b = true <-> a = b.
Proof.
  split; [|intros ->; apply gostring_eqb_refl].
  revert b; induction a as [|x a IH]; intros [|y b]; simpl; try easy.
  rewrite andb_true_iff, Ascii.eqb_eq.
  intros [-> H]. now rewrite (IH _ H).
Qed.

Lemma gostring_eqb_neq (a b : gostring) : gostring_eqb a b = false <-> a <> b.
Proof.
  rewrite <- gostring_eqb_eq. destruct (gostring_eqb a b); split; congruence.
Qed.

Lemma ChecksumStatus_eqb_eq (a b : ChecksumStatus) :
  ChecksumStatus_eqb a b = true <-> a = b.
Proof. destruct a, b; simpl; split; congruence. Qed.

(** ** The read loop *)

Lemma not_involutive (x : Z) : Word.not (Word.not x) = x.
Proof.
  unfold Word.not.
  now rewrite Z.lxor_assoc, Z.lxor_nilpotent, Z.lxor_0_r.
Qed.

Lemma crc32_update_nil (c : Z) : CRC32.update c [] = c.
Proof. unfold CRC32.update. simpl. apply not_involutive. Qed.

Lemma crc32_update_app (c : Z) (p q : list byte) :
  CRC32.update (CRC32.update c p) q = CRC32.update c (p ++ q).
Proof.
  unfold CRC32.update. now rewrite not_involutive, fold_left_app.
Qed.

Lemma Read_pending (n : nat) (x : byte) (l : list byte) (e : ReadEnd) :
  n <> O ->
  Read n (mkReader (x :: l) e)
  = (firstn n (x :: l), None, mkReader (skipn n (x :: l)) e).
Proof. destruct n; [congruence|reflexivity]. Qed.

Lemma Read_drained (n : nat) (e : ReadEnd) :
  n <> O -> Read n (mkReader [] e) = ([], Some e, mkReader [] e).
Proof. destruct n; [congruence|reflexivity]. Qed.

(** With an empty buffer the loop never ends, whatever the fuel. *)
Lemma readLoop_empty_buf (fuel : nat) (r : Reader) (st : ChecksumStatus) :
  readLoop fuel TypeUnknown r (newHasher TypeUnknown) st = Diverges.
Proof.
  induction fuel as [|fuel IH]; simpl; [reflexivity|]. exact IH.
Qed.

(** The CRC-32 loop: one byte per read. *)
Lemma readLoop_crc32 (data : list byte) :
  forall (fuel : nat) (c : Z) (e : ReadEnd) (st : ChecksumStatus),
    (length data < fuel)%nat ->
    readLoop fuel TypeCRC32 (mkReader data e)
             (mkHasher CRC32_BlockSize None (Some c)) st
    = Ret (mkHasher CRC32_BlockSize None (Some (CRC32.update c data)),
           statusAfter e st).
Proof.
  induction data as [|x data IH]; intros [|fuel] c e st Hlt;
    simpl in Hlt; try lia.
  - simpl. rewrite crc32_update_nil. now destruct e.
  - cbn -[CRC32.update]. rewrite IH by lia.
    now rewrite crc32_update_app.
Qed.

(** The loop of the three [hash.Hash] algorithms: 64 bytes per read. *)
Lemma readLoop_hash (t : ChecksumType) (a : HashAlg) (n : nat) :
  t = TypeMD5 \/ t = TypeSHA1 \/ t = TypeSHA256 ->
  n <> O ->
  forall (fuel : nat) (data acc : list byte) (e : ReadEnd)
         (st : ChecksumStatus),
    (length data < fuel)%nat ->
    readLoop fuel t (mkReader data e) (mkHasher n (Some (mkHash a acc)) None) st
    = Ret (mkHasher n (Some (mkHash a (acc ++ data))) None, statusAfter e st).
Proof.
  intros Ht Hn.
  induction fuel as [|fuel IH]; intros data acc e st Hlt; [lia|].
  destruct data as [|x data].
  - cbn [readLoop buf]. rewrite Read_drained by assumption.
    rewrite app_nil_r. now destruct e.
  - cbn [readLoop buf]. rewrite Read_pending by assumption.
    assert (Hw : hasherWrite t (mkHasher n (Some (mkHash a acc)) None)
                   (firstn n (x :: data))
                 = Ret (mkHasher n
                          (Some (mkHash a (acc ++ firstn n (x :: data))))
                          None))
      by (destruct Ht as [-> | [-> | ->]]; reflexivity).
    rewrite Hw. cbn [bind].
    rewrite IH.
    + now rewrite <- app_assoc, firstn_skipn.
    + pose proof (length_skipn n (x :: data)) as Hs.
      destruct n; [congruence|]. simpl in *. lia.
Qed.

(** Hashing an entry of status [StatusOK] and a known algorithm returns,
    with status [StatusCheckSumOK] and the digest of the bytes the stream
    delivered, however the stream ends. *)
Lemma calculateChecksum_known (w : World) (cf : ChecksumFile) :
  Status cf = StatusOK ->
  ChecksumType_ cf <> TypeUnknown ->
  calculateChecksum w cf
  = Ret (set_Checksum (set_Status cf StatusCheckSumOK)
           (digest (ChecksumType_ cf) (streamed w (Filename cf)))).
Proof.
  intros Hst Ht. unfold calculateChecksum, streamed. rewrite Hst.
  set (r := NewReader (fs w (Filename cf))).
  assert (Hp : pending r = match fs w (Filename cf) with
                           | Some f => readable f
                           | None => []
                           end)
    by (unfold r; now destruct (fs w (Filename cf))).
  rewrite <- Hp. destruct r as [data e]. cbn [pending] in *. clear Hp.
  unfold enough_fuel, finishChecksum. cbn [pending].
  destruct (ChecksumType_ cf) eqn:Et; try congruence; cbn [newHasher].
  - rewrite readLoop_crc32 by lia. reflexivity.
  - unfold MD5.BlockSize.
    rewrite (readLoop_hash TypeMD5 AlgMD5 64) by (auto; lia). reflexivity.
  - unfold SHA1.BlockSize.
    rewrite (readLoop_hash TypeSHA1 AlgSHA1 64) by (auto; lia). reflexivity.
  - unfold SHA256.BlockSize.
    rewrite (readLoop_hash TypeSHA256 AlgSHA256 64) by (auto; lia).
    reflexivity.
Qed.

(** Entries in any other status are returned as they are. *)
Lemma calculateChecksum_skip (w : World) (cf : ChecksumFile) :
  Status cf <> StatusOK -> calculateChecksum w cf = Ret cf.
Proof.
  intros H. unfold calculateChecksum.
  destruct (Status cf); try reflexivity. congruence.
Qed.

(** An entry of status [StatusOK] without algorithm keeps the loop
    running for ever. *)
Lemma calculateChecksum_unknown_type (w : World) (cf : ChecksumFile) :
  Status cf = StatusOK ->
  ChecksumType_ cf = TypeUnknown ->
  calculateChecksum w cf = Diverges.
Proof.
  intros Hst Ht. unfold calculateChecksum. rewrite Hst, Ht.
  now rewrite readLoop_empty_buf.
Qed.

(** ** The regular expressions *)

Lemma has_prefix_app (l s : gostring) : has_prefix l (l ++ s) = true.
Proof.
  induction l as [|a l IH]; simpl; [reflexivity|].
  now rewrite Ascii.eqb_refl, IH.
Qed.

Lemma has_prefix_split (l s : gostring) :
  has_prefix l s = true -> s = l ++ skipn (length l) s.
Proof.
  revert s; induction l as [|a l IH]; intros s H; simpl in *; [reflexivity|].
  destruct s as [|b s]; [discriminate|].
  apply andb_true_iff in H as [Hab H]. apply Ascii.eqb_eq in Hab. subst b.
  simpl. f_equal. now apply IH.
Qed.

Lemma firstn_exact {A} (d s : list A) : firstn (length d) (d ++ s) = d.
Proof.
  rewrite firstn_app, Nat.sub_diag, firstn_all. simpl. apply app_nil_r.
Qed.

Lemma skipn_exact {A} (d s : list A) : skipn (length d) (d ++ s) = s.
Proof.
  rewrite skipn_app, Nat.sub_diag, skipn_all. reflexivity.
Qed.

Lemma run_firstn (f : byte -> bool) (s : gostring) (j : nat) :
  (j <= run f s)%nat ->
  forallb f (firstn j s) = true /\ length (firstn j s) = j.
Proof.
  revert j; induction s as [|c s IH]; intros j Hj; simpl in *.
  - assert (j = O) by lia. subst. now rewrite firstn_nil.
  - destruct j as [|j]; [now simpl|].
    destruct (f c) eqn:Hc; [|lia].
    destruct (IH j ltac:(lia)) as [H1 H2]. simpl.
    now rewrite Hc, H1, H2.
Qed.

Lemma run_all (f : byte -> bool) (a s : gostring) :
  forallb f a = true ->
  run f (a ++ s) = (length a + run f s)%nat.
Proof.
  induction a as [|c a IH]; simpl; [reflexivity|].
  intros H. apply andb_true_iff in H as [Hc Ha].
  now rewrite Hc, IH.
Qed.

Lemma run_stop (f : byte -> bool) (a : gostring) (c : byte) (s : gostring) :
  forallb f a = true -> f c = false ->
  run f (a ++ c :: s) = length a.
Proof.
  intros Ha Hc. rewrite run_all by assumption. simpl. rewrite Hc. lia.
Qed.

Lemma run_whole (f : byte -> bool) (a : gostring) :
  forallb f a = true -> run f a = length a.
Proof.
  intros Ha. rewrite <- (app_nil_r a) at 1.
  rewrite run_all by assumption. simpl. lia.
Qed.

(** Whatever [backtrack] returns was found at some length between one
    and its starting point. *)
Lemma backtrack_found (rest : gostring -> option (list gostring))
  (s : gostring) (caps : list gostring) :
  forall k,
    backtrack k rest s = Some caps ->
    exists j caps',
      (0 < j <= k)%nat /\ rest (skipn j s) = Some caps' /\
      caps = firstn j s :: caps'.
Proof.
  induction k as [|k IH]; intros H; [discriminate|].
  cbn [backtrack] in H.
  destruct (rest (skipn (S k) s)) as [caps'|] eqn:E.
  - injection H as <-. exists (S k), caps'. repeat split; auto; lia.
  - destruct (IH H) as (j & caps' & Hj & Hr & Hc).
    exists j, caps'. repeat split; auto; lia.
Qed.

(** If no shorter take lets the rest match, the longest take decides. *)
Lemma backtrack_longest (rest : gostring -> option (list gostring))
  (s : gostring) (k : nat) :
  (forall j, (0 < j < S k)%nat -> rest (skipn j s) = None) ->
  backtrack (S k) rest s
  = option_map (cons (firstn (S k) s)) (rest (skipn (S k) s)).
Proof.
  intros Hnone. cbn [backtrack].
  destruct (rest (skipn (S k) s)) as [caps|]; [reflexivity|].
  simpl. clear - Hnone.
  assert (H : forall m, (m <= k)%nat -> backtrack m rest s = None).
  { induction m as [|m IH]; intros Hm; [reflexivity|].
    cbn [backtrack]. rewrite Hnone by lia. apply IH. lia. }
  now apply H.
Qed.

Theorem submatches_sound (re : Pattern) :
  forall (s : gostring) (caps : list gostring),
    submatches re s = Some caps -> shaped re caps s.
Proof.
  induction re as [|[l | k [|n]] re IH]; intros s caps H; cbn [submatches] in H.
  - destruct s; [|discriminate]. injection H as <-. now split.
  - destruct (has_prefix l s) eqn:Hp; [|discriminate].
    exists (skipn (length l) s). split; [now apply has_prefix_split|].
    now apply IH.
  - apply backtrack_found in H as (j & caps' & Hj & Hr & ->).
    destruct (run_firstn (in_class k) s j ltac:(lia)) as [Hall Hlen].
    exists (firstn j s), caps', (skipn j s).
    repeat split; auto.
    + now rewrite firstn_skipn.
    + intros E. rewrite E in Hlen. simpl in Hlen. lia.
  - destruct ((length (firstn n s) =? n)%nat
              && forallb (in_class k) (firstn n s)) eqn:E; [|discriminate].
    apply andb_true_iff in E as [Hlen Hall]. apply Nat.eqb_eq in Hlen.
    destruct (submatches re (skipn n s)) as [caps'|] eqn:Hr; [|discriminate].
    injection H as <-.
    exists (firstn n s), caps', (skipn n s).
    repeat split; auto. now rewrite firstn_skipn.
Qed.

(** A literal in front. *)
Lemma submatches_lit (l : gostring) (re : Pattern) (s : gostring) :
  submatches (Lit l :: re) (l ++ s) = submatches re s.
Proof.
  cbn [submatches]. now rewrite has_prefix_app, skipn_exact.
Qed.

(** A group of fixed length in front. *)
Lemma submatches_exactly (k : Class) (d : gostring) (re : Pattern)
  (s : gostring) :
  forallb (in_class k) d = true ->
  submatches (Group k (Exactly (length d)) :: re) (d ++ s)
  = option_map (cons d) (submatches re s).
Proof.
  intros Hd. cbn [submatches].
  now rewrite firstn_exact, skipn_exact, Nat.eqb_refl, Hd.
Qed.

(** A fixed-length group cannot start on a character outside its class. *)
Lemma submatches_exactly_head (k : Class) (n : nat) (re : Pattern)
  (c : byte) (s : gostring) :
  in_class k c = false ->
  submatches (Group k (Exactly (S n)) :: re) (c :: s) = None.
Proof.
  intros Hc. cbn [submatches firstn forallb]. rewrite Hc.
  now rewrite andb_false_r.
Qed.

(** A [+] group followed by a literal that starts outside the class:
    the group takes the whole run. *)
Lemma submatches_plus_lit (k : Class) (a : gostring) (c : byte)
  (l : gostring) (re : Pattern) (s : gostring) :
  a <> [] ->
  forallb (in_class k) a = true ->
  in_class k c = false ->
  submatches (Group k Plus :: Lit (c :: l) :: re) (a ++ (c :: l) ++ s)
  = option_map (cons a) (submatches re s).
Proof.
  intros Hne Ha Hc. cbn [submatches].
  change ((c :: l) ++ s) with (c :: (l ++ s)).
  rewrite run_stop by assumption.
  destruct a as [|x a]; [congruence|]. cbn [length].
  rewrite backtrack_longest.
  - change (S (length a)) with (length (x :: a)).
    rewrite firstn_exact, skipn_exact.
    change (c :: l ++ s) with ((c :: l) ++ s).
    change (S (length l)) with (length (c :: l)).
    now rewrite has_prefix_app, skipn_exact.
  - intros j Hj.
    rewrite skipn_app.
    assert (Hlen : (j < length (x :: a))%nat) by (simpl; lia).
    destruct (skipn j (x :: a)) as [|y r] eqn:E.
    { apply (f_equal (@length _)) in E. rewrite length_skipn in E.
      cbn [length] in *. lia. }
    assert (Hy : in_class k y = true).
    { assert (Hin : In y (x :: a)).
      { rewrite <- (firstn_skipn j (x :: a)), E.
        apply in_or_app. right. now left. }
      rewrite forallb_forall in Ha. now apply Ha. }
    cbn [app has_prefix].
    destruct (Ascii.eqb c y) eqn:Ecy; [|reflexivity].
    apply Ascii.eqb_eq in Ecy. congruence.
Qed.

(** A [+] group at the end of the pattern. *)
Lemma submatches_plus_end (k : Class) (a : gostring) :
  a <> [] ->
  forallb (in_class k) a = true ->
  submatches [Group k Plus] a = Some [a].
Proof.
  intros Hne Ha. cbn [submatches]. rewrite run_whole by assumption.
  destruct a as [|x a]; [congruence|].
  cbn [length backtrack].
  change (S (length a)) with (length (x :: a)).
  now rewrite skipn_all, firstn_all.
Qed.

(** The parser's two calls per pattern as one match. *)
Lemma classifyLine_classifyBy (line : gostring) :
  classifyLine line = classifyBy line.
Proof.
  unfold classifyLine, classifyBy, MatchString, FindStringSubmatch, index.
  destruct (submatches reCrc32 line); [reflexivity|].
  destruct (submatches reMd5 line); [reflexivity|].
  destruct (submatches reSha1 line); [reflexivity|].
  destruct (submatches reSha256 line); reflexivity.
Qed.

(** Literal strings as explicit character lists. *)
Ltac eval_str :=
  repeat match goal with
         | |- context [str ?x] =>
             let v := eval cbv in (str x) in change (str x) with v
         end.

Lemma is_word_is_word_dot (c : byte) : is_word c = true -> is_word_dot c = true.
Proof. unfold is_word_dot. now intros ->. Qed.

Lemma all_word_all_word_dot (d : gostring) :
  forallb is_word d = true -> forallb is_word_dot d = true.
Proof.
  rewrite !forallb_forall. intros H c Hc. apply is_word_is_word_dot; auto.
Qed.

Lemma is_word_dot_not (c x : byte) :
  is_word_dot c = false -> is_word_dot x = true -> Ascii.eqb c x = false.
Proof.
  intros Hc Hx. destruct (Ascii.eqb c x) eqn:E; [|reflexivity].
  apply Ascii.eqb_eq in E. congruence.
Qed.

(** No run of four word characters starts with ["MD5 ("]. *)
Lemma md5_prefix_not_word (d s : gostring) :
  forallb is_word d = true -> (4 <= length d)%nat ->
  has_prefix (str "MD5 (") (d ++ s) = false.
Proof.
  intros Hd Hlen.
  destruct d as [|x0 [|x1 [|x2 [|x3 d]]]]; cbn [length] in Hlen; try lia.
  eval_str. cbn [app has_prefix].
  cbn [forallb] in Hd. rewrite !andb_true_iff in Hd.
  destruct Hd as (_ & _ & _ & H3 & _).
  rewrite (is_word_dot_not " "%char x3);
    [now rewrite !andb_false_r | reflexivity | now apply is_word_is_word_dot].
Qed.

(** The first pattern refuses a line that goes on with a space after its
    first space. *)
Lemma reCrc32_two_spaces (a s : gostring) :
  a <> [] -> forallb is_word_dot a = true ->
  submatches reCrc32 (a ++ str "  " ++ s) = None.
Proof.
  intros Hne Ha. unfold reCrc32. eval_str.
  change ([" "%char; " "%char] ++ s) with ([" "%char] ++ (" "%char :: s)).
  rewrite (submatches_plus_lit WDot a " "%char [] _ (" "%char :: s))
    by (auto; reflexivity).
  now rewrite submatches_exactly_head.
Qed.

Lemma head_of_plain (f s : gostring) :
  plainName f -> exists c r, f ++ s = c :: r /\ is_word_dot c = true.
Proof.
  intros [Hne Hall]. destruct f as [|c f]; [congruence|].
  exists c, (f ++ s). split; [reflexivity|].
  cbn [forallb] in Hall. now apply andb_true_iff in Hall.
Qed.

(** *** Every rendered line is read back as it was rendered *)

Lemma classify_crc32 (f d : gostring) :
  plainName f -> forallb is_word d = true -> length d = 8%nat ->
  classifyLine (renderLine TypeCRC32 f d) = Some (TypeCRC32, f, d).
Proof.
  intros [Hne Hf] Hd Hlen. rewrite classifyLine_classifyBy.
  unfold classifyBy, renderLine, reCrc32. eval_str.
  rewrite <- (app_nil_r d) at 1.
  rewrite (submatches_plus_lit WDot f " "%char [] _ (d ++ []))
    by (auto; reflexivity).
  rewrite <- Hlen, submatches_exactly by assumption.
  reflexivity.
Qed.

Lemma classify_md5 (f d : gostring) :
  plainName f -> forallb is_word d = true -> length d = 32%nat ->
  classifyLine (renderLine TypeMD5 f d) = Some (TypeMD5, f, d).
Proof.
  intros [Hne Hf] Hd Hlen. rewrite classifyLine_classifyBy.
  unfold classifyBy, renderLine.
  assert (H1 : submatches reCrc32 (str "MD5 (" ++ f ++ str ") = " ++ d) = None).
  { unfold reCrc32. eval_str.
    change (["M"; "D"; "5"; " "; "("]%char ++ f ++ [")"; " "; "="; " "]%char ++ d)
      with (["M"; "D"; "5"]%char ++ [" "%char]
            ++ ("("%char :: f ++ [")"; " "; "="; " "]%char ++ d)).
    rewrite submatches_plus_lit by (try discriminate; reflexivity).
    now rewrite submatches_exactly_head. }
  rewrite H1. unfold reMd5. rewrite submatches_lit.
  eval_str. rewrite <- (app_nil_r d) at 1.
  rewrite (submatches_plus_lit WDot f ")"%char [" "; "="; " "]%char _ (d ++ []))
    by (auto; reflexivity).
  rewrite <- Hlen, submatches_exactly by assumption.
  reflexivity.
Qed.

Lemma classify_sha1 (f d : gostring) :
  plainName f -> forallb is_word d = true -> length d = 40%nat ->
  classifyLine (renderLine TypeSHA1 f d) = Some (TypeSHA1, f, d).
Proof.
  intros [Hne Hf] Hd Hlen. rewrite classifyLine_classifyBy.
  unfold classifyBy, renderLine.
  rewrite reCrc32_two_spaces;
    [| intros ->; discriminate | now apply all_word_all_word_dot].
  unfold reMd5 at 1. cbn [submatches].
  rewrite md5_prefix_not_word by (auto; lia).
  unfold reSha1. rewrite <- Hlen, submatches_exactly by assumption.
  rewrite submatches_lit, submatches_plus_end by assumption.
  reflexivity.
Qed.

Lemma classify_sha256 (f d : gostring) :
  plainName f -> forallb is_word d = true -> length d = 64%nat ->
  classifyLine (renderLine TypeSHA256 f d) = Some (TypeSHA256, f, d).
Proof.
  intros [Hne Hf] Hd Hlen. rewrite classifyLine_classifyBy.
  unfold classifyBy, renderLine.
  rewrite reCrc32_two_spaces;
    [| intros ->; discriminate | now apply all_word_all_word_dot].
  unfold reMd5 at 1. cbn [submatches].
  rewrite md5_prefix_not_word by (auto; lia).
  assert (H3 : submatches reSha1 (d ++ str "  " ++ f) = None).
  { rewrite <- (firstn_skipn 40 d), <- app_assoc.
    assert (Hl : length (firstn 40 d) = 40%nat)
      by (rewrite length_firstn; lia).
    assert (Hw : forallb is_word (firstn 40 d) = true).
    { rewrite forallb_forall in *. intros c Hc. apply Hd.
      rewrite <- (firstn_skipn 40 d). apply in_or_app. now left. }
    unfold reSha1. rewrite <- Hl at 1.
    rewrite submatches_exactly by assumption.
    destruct (skipn 40 d) as [|y r] eqn:E.
    { apply (f_equal (@length _)) in E. rewrite length_skipn in E.
      cbn [length] in E. lia. }
    assert (Hy : is_word y = true).
    { rewrite forallb_forall in Hd. apply Hd.
      rewrite <- (firstn_skipn 40 d), E. apply in_or_app. right. now left. }
    eval_str. cbn [submatches app has_prefix].
    rewrite (is_word_dot_not " "%char y);
      [reflexivity | reflexivity | now apply is_word_is_word_dot]. }
  rewrite H3.
  unfold reSha256. rewrite <- Hlen, submatches_exactly by assumption.
  rewrite submatches_lit, submatches_plus_end by assumption.
  reflexivity.
Qed.

Lemma classify_rendered (t : ChecksumType) (f d : gostring) :
  t <> TypeUnknown ->
  plainName f -> forallb is_word d = true -> length d = digestLen t ->
  classifyLine (renderLine t f d) = Some (t, f, d).
Proof.
  intros Ht Hf Hd Hlen. destruct t; cbn [digestLen] in Hlen.
  - congruence.
  - now apply classify_crc32.
  - now apply classify_md5.
  - now apply classify_sha1.
  - now apply classify_sha256.
Qed.

(** *** Every accepted line has the layout of its algorithm *)

Lemma classify_sound (line : gostring) (t : ChecksumType) (f d : gostring) :
  classifyLine line = Some (t, f, d) ->
  line = renderLine t f d /\ plainName f /\
  forallb is_word d = true /\ length d = digestLen t.
Proof.
  rewrite classifyLine_classifyBy. unfold classifyBy.
  destruct (submatches reCrc32 line) as [caps|] eqn:E1.
  { intros H. apply submatches_sound in E1. cbn [shaped reCrc32] in E1.
    destruct E1 as (c1 & caps1 & s1 & -> & -> & Hc1 & Hn1 & s2 & -> &
                    c2 & caps2 & s3 & -> & -> & Hc2 & Hl2 & -> & ->).
    cbn [nth] in H. injection H as <- <- <-.
    rewrite app_nil_r. repeat split; auto. }
  destruct (submatches reMd5 line) as [caps|] eqn:E2.
  { intros H. apply submatches_sound in E2. cbn [shaped reMd5] in E2.
    destruct E2 as (s0 & -> & c1 & caps1 & s1 & -> & -> & Hc1 & Hn1 &
                    s2 & -> & c2 & caps2 & s3 & -> & -> & Hc2 & Hl2 &
                    -> & ->).
    cbn [nth] in H. injection H as <- <- <-.
    rewrite app_nil_r. repeat split; auto. }
  destruct (submatches reSha1 line) as [caps|] eqn:E3.
  { intros H. apply submatches_sound in E3. cbn [shaped reSha1] in E3.
    destruct E3 as (c1 & caps1 & s1 & -> & -> & Hc1 & Hl1 & s2 & -> &
                    c2 & caps2 & s3 & -> & -> & Hc2 & Hn2 & -> & ->).
    cbn [nth] in H. injection H as <- <- <-.
    rewrite app_nil_r. repeat split; auto. }
  destruct (submatches reSha256 line) as [caps|] eqn:E4; [|discriminate].
  intros H. apply submatches_sound in E4. cbn [shaped reSha256] in E4.
  destruct E4 as (c1 & caps1 & s1 & -> & -> & Hc1 & Hl1 & s2 & -> &
                  c2 & caps2 & s3 & -> & -> & Hc2 & Hn2 & -> & ->).
  cbn [nth] in H. injection H as <- <- <-.
  rewrite app_nil_r. repeat split; auto.
Qed.

(** ** Digest strings *)

Lemma hexdigit_word (d : Z) :
  0 <= d < 16 -> is_word (Fmt.hexdigit d) = true.
Proof.
  intros H.
  assert (E : d = 0 \/ d = 1 \/ d = 2 \/ d = 3 \/ d = 4 \/ d = 5 \/ d = 6 \/
              d = 7 \/ d = 8 \/ d = 9 \/ d = 10 \/ d = 11 \/ d = 12 \/
              d = 13 \/ d = 14 \/ d = 15) by lia.
  repeat (destruct E as [-> | E]; [reflexivity|]). now subst.
Qed.

Lemma hex_bytes_length (bs : list Z) :
  length (Fmt.hex_bytes bs) = (2 * length bs)%nat.
Proof.
  unfold Fmt.hex_bytes. induction bs as [|b bs IH]; [reflexivity|].
  cbn [flat_map app length]. rewrite IH. lia.
Qed.

Lemma hex_bytes_word (bs : list Z) :
  Forall (fun b => 0 <= b < 256) bs ->
  forallb is_word (Fmt.hex_bytes bs) = true.
Proof.
  unfold Fmt.hex_bytes. induction 1 as [|b bs Hb _ IH]; [reflexivity|].
  cbn [flat_map app forallb]. rewrite IH.
  rewrite !hexdigit_word; [reflexivity| |].
  - apply Z.mod_pos_bound. lia.
  - split; [apply Z.div_pos; lia | apply Z.div_lt_upper_bound; lia].
Qed.

Lemma bytes_be_range (x : Z) :
  Forall (fun b => 0 <= b < 256) (Word.bytes_be x).
Proof. repeat constructor; apply Z.mod_pos_bound; lia. Qed.

Lemma bytes_le_range (x : Z) :
  Forall (fun b => 0 <= b < 256) (Word.bytes_le x).
Proof. repeat constructor; apply Z.mod_pos_bound; lia. Qed.

Create HintDb digest.
#[local] Hint Resolve bytes_be_range bytes_le_range : digest.

Lemma md5_sum_length (m : list byte) : length (MD5.sum m) = 16%nat.
Proof.
  unfold MD5.sum. now destruct (fold_left _ _ _) as [[[a b] c] d].
Qed.

Lemma sha1_sum_length (m : list byte) : length (SHA1.sum m) = 20%nat.
Proof.
  unfold SHA1.sum. now destruct (fold_left _ _ _) as [[[[a b] c] d] e].
Qed.

Lemma sha256_sum_length (m : list byte) : length (SHA256.sum m) = 32%nat.
Proof.
  unfold SHA256.sum.
  now destruct (fold_left _ _ _) as [[[[[[[a b] c] d] e] f] g] h].
Qed.

Lemma md5_sum_range (m : list byte) :
  Forall (fun b => 0 <= b < 256) (MD5.sum m).
Proof.
  unfold MD5.sum. destruct (fold_left _ _ _) as [[[a b] c] d].
  rewrite !Forall_app. repeat split; auto with digest.
Qed.

Lemma sha1_sum_range (m : list byte) :
  Forall (fun b => 0 <= b < 256) (SHA1.sum m).
Proof.
  unfold SHA1.sum. destruct (fold_left _ _ _) as [[[[a b] c] d] e].
  rewrite !Forall_app. repeat split; auto with digest.
Qed.

Lemma sha256_sum_range (m : list byte) :
  Forall (fun b => 0 <= b < 256) (SHA256.sum m).
Proof.
  unfold SHA256.sum.
  destruct (fold_left _ _ _) as [[[[[[[a b] c] d] e] f] g] h].
  rewrite !Forall_app. repeat split; auto with digest.
Qed.

Lemma hex_digits_word (fuel : nat) :
  forall (u : Z) (acc : gostring),
    forallb is_word acc = true ->
    forallb is_word (Fmt.hex_digits fuel u acc) = true.
Proof.
  induction fuel as [|fuel IH]; intros u acc Hacc; [assumption|].
  cbn [Fmt.hex_digits].
  assert (H : forallb is_word (Fmt.hexdigit (u mod 16) :: acc) = true).
  { cbn [forallb]. rewrite Hacc, hexdigit_word; [reflexivity|].
    apply Z.mod_pos_bound. lia. }
  destruct (u / 16 =? 0); [assumption | now apply IH].
Qed.

Lemma hex_digits_length (fuel : nat) :
  forall (u : Z) (acc : gostring),
    (length acc < length (Fmt.hex_digits (S fuel) u acc)
     <= length acc + S fuel)%nat.
Proof.
  induction fuel as [|fuel IH]; intros u acc.
  - cbn [Fmt.hex_digits]. destruct (u / 16 =? 0); cbn [length]; lia.
  - remember (S fuel) as n. cbn [Fmt.hex_digits].
    destruct (u / 16 =? 0); [cbn [length]; lia|].
    subst n. specialize (IH (u / 16) (Fmt.hexdigit (u mod 16) :: acc)).
    cbn [length] in IH. lia.
Qed.

(** The three hex-encoded digests have the length the parser asks. *)
Lemma digest_length (t : ChecksumType) (m : list byte) :
  t = TypeMD5 \/ t = TypeSHA1 \/ t = TypeSHA256 ->
  length (digest t m) = digestLen t.
Proof.
  intros [-> | [-> | ->]]; cbn [digest digestLen]; rewrite hex_bytes_length.
  - now rewrite md5_sum_length.
  - now rewrite sha1_sum_length.
  - now rewrite sha256_sum_length.
Qed.

(** [%x] of the CRC prints between one and eight digits. *)
Lemma digest_crc32_length (m : list byte) :
  (1 <= length (digest TypeCRC32 m) <= 8)%nat.
Proof.
  cbn [digest]. unfold Fmt.hex_uint32.
  pose proof (hex_digits_length 7 (CRC32.checksum m) []) as H.
  cbn [length] in H. lia.
Qed.

Lemma digest_word (t : ChecksumType) (m : list byte) :
  forallb is_word (digest t m) = true.
Proof.
  destruct t; cbn [digest].
  - reflexivity.
  - now apply hex_digits_word.
  - apply hex_bytes_word, md5_sum_range.
  - apply hex_bytes_word, sha1_sum_range.
  - apply hex_bytes_word, sha256_sum_range.
Qed.

Lemma digest_nonempty (t : ChecksumType) (m : list byte) :
  t <> TypeUnknown -> digest t m <> [].
Proof.
  intros Ht E. apply (f_equal (@length _)) in E. cbn [length] in E.
  destruct t; [congruence| | | |].
  - pose proof (digest_crc32_length m). lia.
  - rewrite digest_length in E by auto. discriminate.
  - rewrite digest_length in E by auto. discriminate.
  - rewrite digest_length in E by auto. discriminate.
Qed.

(** The library models against the standards' test vectors for [abc]. *)
Example digest_abc :
  digest TypeCRC32 (str "abc") = str "352441c2" /\
  digest TypeMD5 (str "abc") = str "900150983cd24fb0d6963f7d28e17f72" /\
  digest TypeSHA1 (str "abc") = str "a9993e364706816aba3e25717850c26c9cd0d89d"
  /\
  digest TypeSHA256 (str "abc")
  = str "ba7816bf8f01cfea414140de5dae2223b00361a396177a9cb410ff61f20015ad".
Proof. repeat split; vm_compute; reflexivity. Qed.

(** A message longer than one block (119 bytes pad to exactly two). *)
Example digest_two_blocks :
  digest TypeMD5 (repeat "y"%char 119)
  = str "b2ea3db8221fa9ae01ee0adf42970ba0" /\
  digest TypeSHA1 (repeat "y"%char 119)
  = str "25929d08d28168361a95aa00ff2996fc221af2aa" /\
  digest TypeSHA256 (repeat "y"%char 119)
  = str "0ee964660d4956e34132b7b0f5bdc15fd0d365e26186ac9fd97a090d8d5e5508".
Proof. repeat split; vm_compute; reflexivity. Qed.

(** The digests of the empty input. *)
Lemma digest_empty_md5 :
  digest TypeMD5 [] = str "d41d8cd98f00b204e9800998ecf8427e".
Proof. vm_compute. reflexivity. Qed.

Lemma digest_empty_sha1 :
  digest TypeSHA1 [] = str "da39a3ee5e6b4b0d3255bfef95601890afd80709".
Proof. vm_compute. reflexivity. Qed.

Lemma digest_empty_sha256 :
  digest TypeSHA256 []
  = str "e3b0c44298fc1c149afbf4c8996fb92427ae41e4649b934ca495991b7852b855".
Proof. vm_compute. reflexivity. Qed.

Lemma digest_empty_crc32 : digest TypeCRC32 [] = str "0".
Proof. vm_compute. reflexivity. Qed.

(* ================================================================== *)
(** * The claims *)

(** ** Hashing after a read error *)

(** C1.  An entry that enters [calculateChecksum] with status [StatusOK]
    and a known algorithm, and whose file fails to read with an error
    other than end of stream, does not come out as the claim says
    ([StatusFailedCheckSum], empty [Checksum]): the [switch] after the
    loop runs all the same, so the entry comes out with status
    [StatusCheckSumOK] and, as [Checksum], the non-empty digest of the
    bytes read before the error. *)
Theorem calculateChecksum_read_error (w : World) (cf : ChecksumFile)
  (f : OpenFile) :
  Status cf = StatusOK ->
  ChecksumType_ cf <> TypeUnknown ->
  fs w (Filename cf) = Some f ->
  rend f = IOError ->
  exists cf',
    calculateChecksum w cf = Ret cf' /\
    Status cf' = StatusCheckSumOK /\
    Checksum cf' = digest (ChecksumType_ cf) (readable f) /\
    Checksum cf' <> [].
Proof.
  intros Hst Ht Hf _.
  rewrite calculateChecksum_known by assumption.
  eexists. split; [reflexivity|]. cbn [Status Checksum set_Checksum set_Status].
  unfold streamed. rewrite Hf.
  repeat split. now apply digest_nonempty.
Qed.

Lemma calculateChecksum_read_error_witness :
  exists cf',
    calculateChecksum
      (quiet (onlyFile (str "bad") (mkOpenFile (Some (mkFileInfo false 10))
                                               (str "abc") IOError)) [])
      (mkChecksumFile TypeCRC32 StatusOK (str "bad") 10 [] []) = Ret cf' /\
    Status cf' = StatusCheckSumOK /\
    Checksum cf' = digest TypeCRC32 (str "abc") /\
    Checksum cf' <> [].
Proof.
  apply (calculateChecksum_read_error
           (quiet (onlyFile (str "bad")
                     (mkOpenFile (Some (mkFileInfo false 10))
                                 (str "abc") IOError)) [])
           (mkChecksumFile TypeCRC32 StatusOK (str "bad") 10 [] [])
           (mkOpenFile (Some (mkFileInfo false 10)) (str "abc") IOError));
    [reflexivity | discriminate | reflexivity | reflexivity].
Defined.

(** ** Digest strings of the hashing stage *)

(** C4.  The hashing stage prints the CRC with [%x], which drops leading
    zeros: for the empty file the [Checksum] is the one character [0],
    not [00000000], and the CRC of fifty-six [z] prints as seven
    characters. *)
Theorem calculateChecksum_crc32_unpadded :
  calculateChecksum (quiet (onlyFile (str "empty") (regular [])) [])
                    (mkChecksumFile TypeCRC32 StatusOK (str "empty") 0 [] [])
  = Ret (mkChecksumFile TypeCRC32 StatusCheckSumOK (str "empty") 0
                        (str "0") []) /\
  digest TypeCRC32 (repeat "z"%char 56) = str "27b1316".
Proof. split; vm_compute; reflexivity. Qed.

(** ** Lines the parser passes over *)

(** A comment line, and a non-empty line none of the four patterns
    matches, is passed over: no entry, no change of the total, and the
    loop goes on with the next line. *)
Lemma parseLines_skips (w : World) (c : byte) (l : gostring)
  (rest : list gostring) (total : Z) (cfs : list ChecksumFile) :
  c = ";"%char \/ classifyLine (c :: l) = None ->
  parseLines w ((c :: l) :: rest) total cfs = parseLines w rest total cfs.
Proof.
  intros H. cbn [parseLines].
  destruct (gostring_eqb [c] (str ";")) eqn:E; [reflexivity|].
  destruct H as [-> | ->]; [discriminate | reflexivity].
Qed.

(** An accepted line adds the probed entry and its size. *)
Lemma parseLines_takes (w : World) (line : gostring) (c : byte)
  (l : gostring) (t : ChecksumType) (f d : gostring)
  (rest : list gostring) (total : Z) (cfs : list ChecksumFile) :
  line = c :: l ->
  gostring_eqb [c] (str ";") = false ->
  classifyLine line = Some (t, f, d) ->
  parseLines w (line :: rest) total cfs
  = parseLines w rest
      (add64 total
         (Filesize (verifyChecksumFile w
                      (mkChecksumFile t StatusUnknown f 0 [] d))))
      (cfs ++ [verifyChecksumFile w
                 (mkChecksumFile t StatusUnknown f 0 [] d)]).
Proof.
  intros -> Hc Hl. cbn [parseLines]. now rewrite Hc, Hl.
Qed.

(** C5.  An empty line is not passed over: the comment test slices its
    first character, so the parser panics on it, whatever comes after;
    [Verify] of a manifest that is one empty line panics. *)
Theorem parseLines_empty_line_panics (w : World) (rest : list gostring)
  (total : Z) (cfs : list ChecksumFile) :
  parseLines w ([] :: rest) total cfs = Panic /\
  Verify (withManifest w [] [newline]) [] = Panic.
Proof. split; reflexivity. Qed.

(** ** The File Probe *)

(** C6.  Both probes, [createChecksumFile] on a path and
    [verifyChecksumFile] on the entry the parser has just built for it,
    leave [StatusNotFound] and size [0] when the open fails,
    [StatusStatFailed] and [0] when [Stat] fails, [StatusNotFile] and [0]
    for a directory, and [StatusOK] with the size [Stat] reports
    otherwise; both are total functions. *)
Theorem probe_outcome (w : World) (t : ChecksumType) (path want : gostring) :
  probeOutcome w path (createChecksumFile w t path) /\
  probeOutcome w path
    (verifyChecksumFile w (mkChecksumFile t StatusUnknown path 0 [] want)).
Proof.
  unfold probeOutcome, createChecksumFile, verifyChecksumFile.
  cbn [Filename].
  destruct (fs w path) as [f|] eqn:Ef;
    [destruct (Stat f) as [fi|] eqn:Es; [destruct (IsDir fi) eqn:Ed|]|];
    repeat split; intros;
    repeat match goal with
           | H : Some _ = Some _ |- _ => injection H as ?; subst
           end;
    cbn [Status Filesize set_Status set_Filesize];
    congruence.
Qed.

(** ** The checksum field of an accepted line *)

Lemma classify_known (line : gostring) (t : ChecksumType) (f d : gostring) :
  classifyLine line = Some (t, f, d) -> t <> TypeUnknown.
Proof.
  rewrite classifyLine_classifyBy. unfold classifyBy.
  destruct (submatches reCrc32 line); [intros [= <- _ _]; discriminate|].
  destruct (submatches reMd5 line); [intros [= <- _ _]; discriminate|].
  destruct (submatches reSha1 line); [intros [= <- _ _]; discriminate|].
  destruct (submatches reSha256 line); [intros [= <- _ _]|]; discriminate.
Qed.

(** The patterns ask for word characters, not for hexadecimal ones: this
    line is accepted in the CRC32 form with a checksum field that holds
    no hexadecimal character. *)
Lemma classifyLine_accepts_non_hex :
  classifyLine (str "a zzzzzzzz") = Some (TypeCRC32, str "a", str "zzzzzzzz")
  /\ forallb is_hex (str "zzzzzzzz") = false.
Proof. split; vm_compute; reflexivity. Qed.

(** C8, amended.  For every line the parser accepts, the extracted
    checksum consists of word characters only ([0-9A-Za-z_]) and has
    exactly 8 (CRC32 form), 32 (MD5 form), 40 (SHA-1 form) or 64 (SHA-256
    form) characters, and the line is the layout of its form around the
    extracted filename and checksum; so a line whose checksum field holds
    a character that is no word character is not accepted with it. *)
Theorem classifyLine_checksum_field (line : gostring) (t : ChecksumType)
  (f d : gostring) :
  classifyLine line = Some (t, f, d) ->
  forallb is_word d = true /\
  length d = digestLen t /\
  In (length d) [8; 32; 40; 64]%nat /\
  line = renderLine t f d /\
  (forall d', forallb is_word d' = false ->
              classifyLine (renderLine t f d') <> Some (t, f, d')).
Proof.
  intros H. pose proof (classify_known _ _ _ _ H) as Ht.
  destruct (classify_sound _ _ _ _ H) as (Hline & _ & Hw & Hlen).
  repeat split; auto.
  - rewrite Hlen. destruct t; cbn; auto; congruence.
  - intros d' Hd' H'. apply classify_sound in H'. destruct H' as (_ & _ & Hw' & _).
    congruence.
Qed.

Lemma classifyLine_checksum_field_witness :
  forallb is_word (str "352441c2") = true /\
  length (str "352441c2") = digestLen TypeCRC32 /\
  In (length (str "352441c2")) [8; 32; 40; 64]%nat /\
  str "a.txt 352441c2" = renderLine TypeCRC32 (str "a.txt") (str "352441c2") /\
  (forall d', forallb is_word d' = false ->
              classifyLine (renderLine TypeCRC32 (str "a.txt") d')
              <> Some (TypeCRC32, str "a.txt", d')).
Proof.
  apply (classifyLine_checksum_field (str "a.txt 352441c2") TypeCRC32
           (str "a.txt") (str "352441c2")).
  vm_compute. reflexivity.
Defined.

(** ** Terminal failure states *)


(** ** Verification *)

Lemma Ret_inj {A} (a b : A) : Ret a = Ret b -> a = b.
Proof. now intros [= ->]. Qed.

Lemma mapM_ret {A B} (f : A -> Result B) (l : list A) :
  (forall a, In a l -> exists b, f a = Ret b) ->
  exists bs, mapM f l = Ret bs /\ Forall2 (fun a b => f a = Ret b) l bs.
Proof.
  induction l as [|a l IH]; intros H.
  - exists []. now split.
  - destruct (H a (or_introl eq_refl)) as [b Hb].
    destruct IH as (bs & Hbs & HF); [intros; apply H; now right|].
    exists (b :: bs). cbn [mapM]. rewrite Hb, Hbs. split; [reflexivity|].
    now constructor.
Qed.

Lemma verifyChecksumFile_probed (w : World) (e : ChecksumFile) :
  ChecksumType_ e <> TypeUnknown -> probed (verifyChecksumFile w e).
Proof.
  intros Ht. unfold probed, verifyChecksumFile.
  destruct (fs w (Filename e)) as [f|]; [destruct (Stat f) as [fi|];
    [destruct (IsDir fi)|]|]; cbn; auto 6.
Qed.

Lemma parseLines_probed (w : World) (lines : list gostring) :
  forall total acc total' cfs,
    Forall probed acc ->
    parseLines w lines total acc = Ret (total', cfs) ->
    Forall probed cfs.
Proof.
  induction lines as [|line lines IH]; intros total acc total' cfs Hacc H.
  - cbn in H. now injection H as _ <-.
  - cbn [parseLines] in H. destruct line as [|c l]; [discriminate|].
    destruct (gostring_eqb [c] (str ";")); [now apply IH in H|].
    destruct (classifyLine (c :: l)) as [[[t f] d]|] eqn:E;
      [|now apply IH in H].
    apply IH in H; [assumption|].
    apply Forall_app. split; [assumption|]. constructor; [|constructor].
    apply verifyChecksumFile_probed. cbn. now apply classify_known in E.
Qed.

Lemma parseSfvFile_probed (w : World) (file : gostring) (total : Z)
  (cfs : list ChecksumFile) :
  parseSfvFile w file = Ret (total, cfs) -> Forall probed cfs.
Proof.
  unfold parseSfvFile. intros H.
  destruct (gostring_eqb file []).
  - cbn [bind] in H. now apply parseLines_probed in H.
  - destruct (fs w file); [|discriminate].
    cbn [bind] in H. now apply parseLines_probed in H.
Qed.

(** What [Verify] does with one entry the parser produced. *)
Lemma verifyOne_probed (w : World) (e : ChecksumFile) :
  probed e ->
  exists h, verified w e h (compareChecksum h) /\
            verifyOne w e = Ret (compareChecksum h).
Proof.
  intros [Ht Hs]. unfold verifyOne, verified.
  assert (Hh : exists h, calculateChecksum w e = Ret h /\
                 Status h <> StatusCheckSumNoMatch /\
                 ChecksumWant h = ChecksumWant e /\
                 (Status h = StatusCheckSumOK ->
                  Checksum h = digest (ChecksumType_ e)
                                      (streamed w (Filename e)))).
  { cbn [In] in Hs. destruct Hs as [Hs | Hs].
    - symmetry in Hs. rewrite calculateChecksum_known by assumption.
      eexists. split; [reflexivity|]. cbn. repeat split. discriminate.
    - rewrite calculateChecksum_skip
        by (intros E; rewrite E in Hs; intuition discriminate).
      exists e. repeat split.
      + intros E; rewrite E in Hs; intuition discriminate.
      + intros E; rewrite E in Hs; intuition discriminate. }
  destruct Hh as (h & Hcalc & Hnm & Hwant & Hsum).
  exists h. rewrite Hcalc. split; [|reflexivity].
  split; [reflexivity|].
  unfold compareChecksum.
  destruct (ChecksumStatus_eqb (Status h) StatusCheckSumOK) eqn:Eok.
  - apply ChecksumStatus_eqb_eq in Eok.
    destruct (gostring_eqb (Checksum h) (ChecksumWant h)) eqn:Eeq; cbn [andb negb].
    + apply gostring_eqb_eq in Eeq. repeat split; try congruence.
      intros [_ Hne]. congruence.
    + apply gostring_eqb_neq in Eeq. cbn [Status set_Status Checksum ChecksumWant].
      repeat split; auto; congruence.
  - cbn [andb].
    assert (Hnok : Status h <> StatusCheckSumOK).
    { intros E. apply ChecksumStatus_eqb_eq in E. congruence. }
    repeat split; try congruence. intros [E _]. congruence.
Qed.

(** C7.  For every entry [e] the parser returns, [Verify] returns an
    entry [r] whose status is [StatusCheckSumNoMatch] if and only if the
    status after hashing was [StatusCheckSumOK] and the computed checksum
    differs from the wanted one; then [Checksum] is the digest computed
    from the file's bytes and [ChecksumWant] is still the parsed value;
    otherwise [r] is the entry as hashing left it. *)
Theorem Verify_mismatch (w : World) (file : gostring) (total : Z)
  (parsed : list ChecksumFile) :
  parseSfvFile w file = Ret (total, parsed) ->
  exists results,
    Verify w file = Ret results /\
    Forall2 (fun e r => exists h, verified w e h r) parsed results.
Proof.
  intros Hp. pose proof (parseSfvFile_probed _ _ _ _ Hp) as Hall.
  unfold Verify. rewrite Hp. cbn [bind].
  destruct (mapM_ret (verifyOne w) parsed) as (rs & Hrs & HF).
  { intros e He. rewrite Forall_forall in Hall.
    destruct (verifyOne_probed w e (Hall e He)) as (h & _ & Hv). eauto. }
  exists rs. split; [assumption|].
  clear Hrs Hp. induction HF as [|e r es rs' Her _ IH]; constructor.
  - inversion Hall as [|? ? He _]; subst.
    destruct (verifyOne_probed w e He) as (h & Hver & Hv).
    exists h. rewrite Her in Hv. injection Hv as ->. exact Hver.
  - apply IH. now inversion Hall.
Qed.

Lemma Verify_mismatch_witness :
  exists results,
    Verify (quiet (onlyFile (str "a.txt") (regular (str "abc")))
                  (str "a.txt 00000000")) []
    = Ret results /\
    Forall2
      (fun e r =>
         exists h,
           verified (quiet (onlyFile (str "a.txt") (regular (str "abc")))
                           (str "a.txt 00000000")) e h r)
      [mkChecksumFile TypeCRC32 StatusOK (str "a.txt") 3 [] (str "00000000")]
      results.
Proof.
  apply (Verify_mismatch
           (quiet (onlyFile (str "a.txt") (regular (str "abc")))
                  (str "a.txt 00000000"))
           [] 3
           [mkChecksumFile TypeCRC32 StatusOK (str "a.txt") 3 []
                           (str "00000000")]).
  vm_compute. reflexivity.
Defined.

(** A wrong wanted checksum against a real file: the entry comes back as
    a mismatch, with the file's own CRC as [Checksum] and the manifest's
    value as [ChecksumWant]. *)
Example Verify_wrong_checksum :
  Verify (quiet (onlyFile (str "a.txt") (regular (str "abc")))
                (str "a.txt 00000000")) []
  = Ret [mkChecksumFile TypeCRC32 StatusCheckSumNoMatch (str "a.txt") 3
                        (str "352441c2") (str "00000000")].
Proof. vm_compute. reflexivity. Qed.

(** ** Determinism *)

Section SameFiles.

Variables w1 w2 : World.
Hypothesis same_fs : forall name, fs w1 name = fs w2 name.
Hypothesis same_stdin : stdin w1 = stdin w2.

Lemma calculateChecksum_same (cf : ChecksumFile) :
  calculateChecksum w1 cf = calculateChecksum w2 cf.
Proof. unfold calculateChecksum. now rewrite same_fs. Qed.

Lemma verifyChecksumFile_same (cf : ChecksumFile) :
  verifyChecksumFile w1 cf = verifyChecksumFile w2 cf.
Proof. unfold verifyChecksumFile. now rewrite same_fs. Qed.

Lemma parseLines_same (lines : list gostring) :
  forall total acc,
    parseLines w1 lines total acc = parseLines w2 lines total acc.
Proof.
  induction lines as [|line lines IH]; intros total acc; [reflexivity|].
  cbn [parseLines]. destruct line as [|c l]; [reflexivity|].
  destruct (gostring_eqb [c] (str ";")); [apply IH|].
  destruct (classifyLine (c :: l)) as [[[t f] d]|]; [|apply IH].
  rewrite verifyChecksumFile_same. apply IH.
Qed.

Lemma parseSfvFile_same (file : gostring) :
  parseSfvFile w1 file = parseSfvFile w2 file.
Proof.
  unfold parseSfvFile. rewrite same_fs, same_stdin.
  destruct (gostring_eqb file []); cbn [bind]; [apply parseLines_same|].
  destruct (fs w2 file); cbn [bind]; [apply parseLines_same | reflexivity].
Qed.

Lemma mapM_verifyOne_same (cfs : list ChecksumFile) :
  mapM (verifyOne w1) cfs = mapM (verifyOne w2) cfs.
Proof.
  induction cfs as [|cf cfs IH]; [reflexivity|].
  cbn [mapM]. unfold verifyOne at 1 3.
  now rewrite calculateChecksum_same, IH.
Qed.

Lemma Verify_same (file : gostring) : Verify w1 file = Verify w2 file.
Proof.
  unfold Verify. rewrite parseSfvFile_same.
  destruct (parseSfvFile w2 file) as [[total cfs]| | |]; cbn [bind];
    [apply mapM_verifyOne_same | reflexivity ..].
Qed.

End SameFiles.

(** C9.  Two runs of [Verify] over the same manifest path, in worlds
    that agree on every file and on standard input (and may differ in
    everything else: clock, build strings, the fate of output), end the
    same way and, when they return, return sequences of the same length
    with the same status at every position. *)
Theorem Verify_deterministic (w1 w2 : World) (file : gostring) :
  (forall name, fs w1 name = fs w2 name) ->
  stdin w1 = stdin w2 ->
  statuses (Verify w1 file) = statuses (Verify w2 file).
Proof.
  intros Hfs Hin. now rewrite (Verify_same w1 w2 Hfs Hin).
Qed.

Lemma Verify_deterministic_witness :
  statuses (Verify (quiet (onlyFile (str "a.txt") (regular (str "abc")))
                          (str "a.txt 352441c2")) [])
  = statuses (Verify (mkWorld (onlyFile (str "a.txt") (regular (str "abc")))
                              (str "a.txt 352441c2")
                              (fun _ => true) (fun _ => true)
                              (str "2022-11-05T08:30:00Z") [] [])
                     []).
Proof.
  apply (Verify_deterministic
           (quiet (onlyFile (str "a.txt") (regular (str "abc")))
                  (str "a.txt 352441c2"))
           (mkWorld (onlyFile (str "a.txt") (regular (str "abc")))
                    (str "a.txt 352441c2")
                    (fun _ => true) (fun _ => true)
                    (str "2022-11-05T08:30:00Z") [] [])
           []);
    [intros name; reflexivity | reflexivity].
Defined.

(** ** The scanner *)

Lemma raw_lines_line (l : gostring) :
  forall (cur rest : gostring),
    noNewline l = true ->
    raw_lines (l ++ newline :: rest) cur = (cur ++ l) :: raw_lines rest [].
Proof.
  induction l as [|c l IH]; intros cur rest Hl.
  - cbn [app raw_lines]. rewrite Ascii.eqb_refl. now rewrite app_nil_r.
  - unfold noNewline in Hl. cbn [forallb] in Hl.
    apply andb_true_iff in Hl as [Hc Hl]. apply negb_true_iff in Hc.
    cbn [app raw_lines]. rewrite Hc, IH by assumption.
    now rewrite <- app_assoc.
Qed.

Lemma raw_lines_concat (ls : list gostring) :
  Forall (fun l => noNewline l = true) ls ->
  raw_lines (concat (map (fun l => l ++ [newline]) ls)) [] = ls.
Proof.
  induction 1 as [|l ls Hl _ IH]; [reflexivity|].
  cbn [map concat]. rewrite <- app_assoc. cbn [app].
  now rewrite raw_lines_line, IH.
Qed.

Lemma fitting_all (ls : list gostring) :
  Forall (fun l => Z.of_nat (length l) < MaxScanTokenSize) ls ->
  fitting ls = ls.
Proof.
  induction 1 as [|l ls Hl _ IH]; [reflexivity|].
  cbn [fitting]. apply Z.ltb_lt in Hl. now rewrite Hl, IH.
Qed.

Lemma dropCR_keeps (l : gostring) (c : byte) :
  Ascii.eqb c carriage_return = false -> dropCR (l ++ [c]) = l ++ [c].
Proof.
  intros Hc. unfold dropCR. rewrite rev_app_distr. cbn [rev app].
  now rewrite Hc.
Qed.

Lemma dropCR_head (c x : byte) (l : gostring) :
  dropCR (c :: x :: l) = c :: dropCR (x :: l).
Proof.
  unfold dropCR. cbn [rev].
  destruct (rev l) as [|z r] eqn:E; cbn [app].
  - destruct (Ascii.eqb x carriage_return); reflexivity.
  - destruct (Ascii.eqb z carriage_return); [|reflexivity].
    now rewrite rev_app_distr.
Qed.

(** ** Creation, writing and reading back *)

Lemma mapM_map {A B C} (f : B -> Result C) (g : A -> B) (h : A -> C)
  (l : list A) :
  (forall a, In a l -> f (g a) = Ret (h a)) ->
  mapM f (map g l) = Ret (map h l).
Proof.
  induction l as [|a l IH]; intros H; [reflexivity|].
  cbn [map mapM]. rewrite H by now left.
  cbn [bind]. rewrite IH by (intros; apply H; now right). reflexivity.
Qed.

Lemma createChecksumFile_regular (w : World) (t : ChecksumType)
  (name : gostring) :
  readableRegular w name ->
  createChecksumFile w t name
  = mkChecksumFile t StatusOK name (sizeOf w name) [] [].
Proof.
  intros (f & fi & Hf & Hs & Hd & _).
  unfold createChecksumFile, sizeOf. now rewrite Hf, Hs, Hd.
Qed.

Lemma verifyChecksumFile_regular (w : World) (t : ChecksumType)
  (name want : gostring) :
  readableRegular w name ->
  verifyChecksumFile w (mkChecksumFile t StatusUnknown name 0 [] want)
  = mkChecksumFile t StatusOK name (sizeOf w name) [] want.
Proof.
  intros (f & fi & Hf & Hs & Hd & _).
  unfold verifyChecksumFile, sizeOf. cbn [Filename].
  now rewrite Hf, Hs, Hd.
Qed.

Lemma Create_regular (w : World) (t : ChecksumType) (files : list gostring) :
  t <> TypeUnknown ->
  Forall (readableRegular w) files ->
  Create w t files = Ret (map (createdOf w t) files).
Proof.
  intros Ht Hall. unfold Create. apply mapM_map.
  intros name Hin. rewrite Forall_forall in Hall.
  rewrite createChecksumFile_regular by auto.
  now rewrite calculateChecksum_known.
Qed.

Lemma formatLine_known (cf : ChecksumFile) :
  ChecksumType_ cf <> TypeUnknown ->
  formatLine cf
  = Some (renderLine (ChecksumType_ cf) (Filename cf) (Checksum cf)
          ++ [newline]).
Proof.
  intros Ht. unfold formatLine, renderLine.
  destruct (ChecksumType_ cf); try congruence;
    now rewrite <- ?app_assoc.
Qed.

Lemma writeEntries_created (w : World) (t : ChecksumType)
  (files : list gostring) :
  t <> TypeUnknown ->
  (forall k, write_fails w k = false) ->
  forall (k : nat) (out : gostring),
    writeEntries w (map (createdOf w t) files) k out
    = Ret (out ++ concat (map (fun l => l ++ [newline])
                              (map (lineOf w t) files))).
Proof.
  intros Ht Hw. induction files as [|name files IH]; intros k out.
  - cbn. now rewrite app_nil_r.
  - cbn [map writeEntries concat].
    cbn [createdOf Status ChecksumStatus_eqb].
    rewrite formatLine_known by assumption.
    rewrite Hw, IH. cbn [ChecksumType_ Filename Checksum].
    unfold lineOf at 2. now rewrite <- app_assoc.
Qed.

Lemma header_headerLine (w : World) : header w = headerLine w ++ [newline].
Proof. unfold header, headerLine. now rewrite <- !app_assoc. Qed.

Lemma WriteToFile_created (w : World) (t : ChecksumType)
  (files : list gostring) (path : gostring) :
  t <> TypeUnknown ->
  writable w path ->
  WriteToFile w (map (createdOf w t) files) path
  = Ret (concat (map (fun l => l ++ [newline])
                     (headerLine w :: map (lineOf w t) files))).
Proof.
  intros Ht [Hw Hc]. unfold WriteToFile.
  rewrite Hc, andb_false_r, Hw, writeEntries_created by assumption.
  now rewrite header_headerLine.
Qed.

(** *** The printed lines, as the scanner and the parser see them *)

Lemma word_dot_plain (c : byte) :
  is_word_dot c = true ->
  Ascii.eqb c newline = false /\ Ascii.eqb c carriage_return = false /\
  gostring_eqb [c] (str ";") = false.
Proof.
  intros Hc. repeat split.
  - destruct (Ascii.eqb c newline) eqn:E; [|reflexivity].
    apply Ascii.eqb_eq in E. subst. discriminate.
  - destruct (Ascii.eqb c carriage_return) eqn:E; [|reflexivity].
    apply Ascii.eqb_eq in E. subst. discriminate.
  - destruct (gostring_eqb [c] (str ";")) eqn:E; [|reflexivity].
    apply gostring_eqb_eq in E. injection E as ->. discriminate.
Qed.

Lemma word_dot_noNewline (l : gostring) :
  forallb is_word_dot l = true -> noNewline l = true.
Proof.
  unfold noNewline. rewrite !forallb_forall. intros H c Hc.
  apply negb_true_iff. now apply word_dot_plain, H.
Qed.

Lemma noNewline_app (a b : gostring) :
  noNewline (a ++ b) = noNewline a && noNewline b.
Proof. apply forallb_app. Qed.

Section RenderedLine.

Variables (t : ChecksumType) (f d : gostring).
Hypothesis known : t <> TypeUnknown.
Hypothesis plain : plainName f.
Hypothesis word : forallb is_word d = true.
Hypothesis nonempty : d <> [].

Lemma renderLine_noNewline : noNewline (renderLine t f d) = true.
Proof.
  pose proof (word_dot_noNewline f (proj2 plain)) as Hf.
  pose proof (word_dot_noNewline d (all_word_all_word_dot d word)) as Hd.
  destruct t; try congruence; unfold renderLine;
    rewrite !noNewline_app, Hf, Hd; reflexivity.
Qed.

Lemma renderLine_length :
  (length (renderLine t f d) <= length f + length d + 9)%nat.
Proof.
  clear. destruct t; unfold renderLine; eval_str; rewrite ?length_app;
    cbn [length]; lia.
Qed.

Lemma renderLine_head :
  exists c l, renderLine t f d = c :: l /\ gostring_eqb [c] (str ";") = false.
Proof.
  destruct plain as [Hne Hf].
  destruct f as [|x f']; [congruence|].
  destruct d as [|y d']; [congruence|].
  cbn [forallb] in Hf, word.
  apply andb_true_iff in Hf as [Hx _]. apply andb_true_iff in word as [Hy _].
  destruct t; try congruence; unfold renderLine; eval_str; cbn [app].
  - exists x. eexists. split; [reflexivity|]. now apply word_dot_plain.
  - eexists _, _. split; reflexivity.
  - exists y. eexists. split; [reflexivity|].
    now apply word_dot_plain, is_word_is_word_dot.
  - exists y. eexists. split; [reflexivity|].
    now apply word_dot_plain, is_word_is_word_dot.
Qed.

Lemma renderLine_dropCR : dropCR (renderLine t f d) = renderLine t f d.
Proof.
  destruct plain as [Hne Hf].
  destruct (exists_last Hne) as (f' & x & Ef).
  destruct (exists_last nonempty) as (d' & y & Ed).
  assert (Hx : is_word_dot x = true).
  { rewrite forallb_forall in Hf. apply Hf. rewrite Ef.
    apply in_or_app. right. now left. }
  assert (Hy : is_word_dot y = true).
  { apply is_word_is_word_dot. rewrite forallb_forall in word. apply word.
    rewrite Ed. apply in_or_app. right. now left. }
  destruct t; try congruence; unfold renderLine.
  - rewrite Ed, !app_assoc. now apply dropCR_keeps, word_dot_plain.
  - rewrite Ed, !app_assoc. now apply dropCR_keeps, word_dot_plain.
  - rewrite Ef, !app_assoc. now apply dropCR_keeps, word_dot_plain.
  - rewrite Ef, !app_assoc. now apply dropCR_keeps, word_dot_plain.
Qed.

End RenderedLine.

(** *** The manifest in place *)

Lemma fs_withManifest (w : World) (path out name : gostring) :
  name <> path -> fs (withManifest w path out) name = fs w name.
Proof.
  intros Hne. unfold withManifest.
  destruct (gostring_eqb path []); cbn [fs]; [reflexivity|].
  destruct (gostring_eqb name path) eqn:E; [|reflexivity].
  apply gostring_eqb_eq in E. congruence.
Qed.

Lemma parseSfvFile_withManifest (w : World) (path out : gostring) :
  parseSfvFile (withManifest w path out) path
  = parseLines (withManifest w path out) (ScanLines out) 0 [].
Proof.
  unfold parseSfvFile, withManifest.
  destruct (gostring_eqb path []) eqn:E; cbn [stdin fs bind]; [reflexivity|].
  now rewrite gostring_eqb_refl.
Qed.

Section ReadBack.

Variables (w w' : World) (t : ChecksumType).
Hypothesis known : t <> TypeUnknown.

Lemma parseLines_lineOf (names : list gostring) :
  Forall (readBack w w' t) names ->
  forall (total : Z) (acc : list ChecksumFile),
  exists total',
    parseLines w' (map (lineOf w t) names) total acc
    = Ret (total',
           acc ++ map (fun name =>
                         mkChecksumFile t StatusOK name (sizeOf w name) []
                                        (digest t (streamed w name)))
                      names).
Proof.
  induction 1 as [|name names (Hplain & Hreg & Hfs & Hlen) _ IH];
    intros total acc.
  - exists total. cbn. now rewrite app_nil_r.
  - cbn [map]. unfold lineOf at 1.
    destruct (renderLine_head t name (digest t (streamed w name)))
      as (c & l & El & Hc); auto using digest_word, digest_nonempty.
    rewrite (parseLines_takes w' _ c l t name (digest t (streamed w name)))
      by auto using classify_rendered, digest_word.
    rewrite verifyChecksumFile_regular by assumption.
    assert (Hsize : sizeOf w' name = sizeOf w name)
      by (unfold sizeOf; now rewrite Hfs).
    rewrite Hsize. cbn [Filesize].
    destruct (IH (add64 total (sizeOf w name))
                 (acc ++ [mkChecksumFile t StatusOK name (sizeOf w name) []
                            (digest t (streamed w name))]))
      as (total' & ->).
    exists total'. now rewrite <- app_assoc.
Qed.

Lemma verifyOne_read_back (name : gostring) :
  readBack w w' t name ->
  verifyOne w' (mkChecksumFile t StatusOK name (sizeOf w name) []
                               (digest t (streamed w name)))
  = Ret (verifiedOf w t name).
Proof.
  intros (_ & _ & Hfs & _). unfold verifyOne.
  rewrite calculateChecksum_known by (cbn; auto).
  cbn [bind ChecksumType_ Filename].
  assert (Hs : streamed w' name = streamed w name)
    by (unfold streamed; now rewrite Hfs).
  rewrite Hs. unfold compareChecksum.
  cbn [set_Checksum set_Status Status Checksum ChecksumWant
       ChecksumType_ Filename Filesize ChecksumStatus_eqb].
  now rewrite gostring_eqb_refl.
Qed.

End ReadBack.

Lemma recovered_read_back (w : World) (t : ChecksumType)
  (names : list gostring) :
  Forall2 recovered (map (createdOf w t) names) (map (verifiedOf w t) names).
Proof.
  induction names as [|name names IH]; constructor; [|assumption].
  repeat split.
Qed.

(** The round trip for every algorithm whose digests have the length the
    parser asks. *)
Lemma round_trip_of_length (w : World) (t : ChecksumType)
  (files : list gostring) (path : gostring) :
  t <> TypeUnknown ->
  Forall (fun name => length (digest t (streamed w name)) = digestLen t)
         files ->
  Forall (fun name => readableRegular w name /\ plainName name /\
                      shortName name) files ->
  ~ In path files ->
  headerFits w ->
  writable w path ->
  RoundTrip w t files path.
Proof.
  intros Ht Hlen Hfiles Hpath [Hnl Hfit] Hw.
  exists (map (createdOf w t) files),
         (concat (map (fun l => l ++ [newline])
                      (headerLine w :: map (lineOf w t) files))),
         (map (verifiedOf w t) files).
  rewrite Forall_forall in Hlen, Hfiles.
  split; [|split; [|split]].
  - apply Create_regular; [assumption|].
    rewrite Forall_forall. intros name Hin. now apply Hfiles.
  - now apply WriteToFile_created.
  - set (out := concat _). set (w' := withManifest w path out).
    assert (Hgood : Forall (readBack w w' t) files).
    { rewrite Forall_forall. intros name Hin.
      destruct (Hfiles name Hin) as (Hreg & Hplain & _).
      assert (Hfs : fs w' name = fs w name)
        by (apply fs_withManifest; intros ->; contradiction).
      repeat split; auto.
      - apply Hplain.
      - apply Hplain.
      - destruct Hreg as (f & fi & Hreg). exists f, fi. now rewrite Hfs. }
    assert (Hscan : ScanLines out
                    = dropCR (headerLine w) :: map (lineOf w t) files).
    { unfold ScanLines, out. rewrite raw_lines_concat, fitting_all.
      - cbn [map]. f_equal. rewrite map_map. apply map_ext_in.
        intros name Hin. destruct (Hfiles name Hin) as (_ & Hplain & _).
        apply renderLine_dropCR; auto using digest_word, digest_nonempty.
      - constructor; [assumption|].
        rewrite Forall_forall. intros l Hl. apply in_map_iff in Hl.
        destruct Hl as (name & <- & Hin).
        destruct (Hfiles name Hin) as (_ & _ & Hshort).
        pose proof (renderLine_length t name (digest t (streamed w name)))
          as Hline.
        unfold lineOf. rewrite (Hlen name Hin) in *.
        unfold shortName, PATH_MAX in Hshort. unfold MaxScanTokenSize.
        assert (digestLen t <= 64)%nat by (destruct t; cbn; lia).
        lia.
      - constructor; [assumption|].
        rewrite Forall_forall. intros l Hl. apply in_map_iff in Hl.
        destruct Hl as (name & <- & Hin).
        destruct (Hfiles name Hin) as (_ & Hplain & _).
        apply renderLine_noNewline; auto using digest_word. }
    unfold Verify. fold w'. unfold w' at 1.
    rewrite parseSfvFile_withManifest. fold w'. rewrite Hscan.
    assert (Hhead : exists l, dropCR (headerLine w) = ";"%char :: l).
    { unfold headerLine. eval_str. cbn [app]. rewrite dropCR_head. eauto. }
    destruct Hhead as (l & ->).
    rewrite parseLines_skips by now left.
    destruct (parseLines_lineOf w w' t Ht files Hgood 0 []) as (total & ->).
    cbn [bind app]. apply mapM_map.
    intros name Hin. rewrite Forall_forall in Hgood.
    apply verifyOne_read_back; [assumption|]. now apply Hgood.
  - apply recovered_read_back.
Qed.

(** ** The round trip *)

(** A file name with a hyphen: [Create] hashes the file and
    [WriteToFile] prints its line, but no pattern of the parser takes a
    [-] in the name, so [Verify] of the written manifest returns no entry
    for it. *)
Lemma round_trip_breaks_on_hyphen :
  readableRegular (quiet (onlyFile (str "a-b") (regular [])) []) (str "a-b")
  /\
  Create (quiet (onlyFile (str "a-b") (regular [])) []) TypeMD5 [str "a-b"]
  = Ret [mkChecksumFile TypeMD5 StatusCheckSumOK (str "a-b") 0
           (str "d41d8cd98f00b204e9800998ecf8427e") []]
  /\
  WriteToFile (quiet (onlyFile (str "a-b") (regular [])) [])
    [mkChecksumFile TypeMD5 StatusCheckSumOK (str "a-b") 0
       (str "d41d8cd98f00b204e9800998ecf8427e") []] []
  = Ret (header (quiet (onlyFile (str "a-b") (regular [])) [])
         ++ str "MD5 (a-b) = d41d8cd98f00b204e9800998ecf8427e"
         ++ [newline])
  /\
  Verify
    (withManifest (quiet (onlyFile (str "a-b") (regular [])) []) []
       (header (quiet (onlyFile (str "a-b") (regular [])) [])
        ++ str "MD5 (a-b) = d41d8cd98f00b204e9800998ecf8427e"
        ++ [newline]))
    []
  = Ret []
  /\
  ~ RoundTrip (quiet (onlyFile (str "a-b") (regular [])) []) TypeMD5
      [str "a-b"] [].
Proof.
  assert (Hc : Create (quiet (onlyFile (str "a-b") (regular [])) [])
                 TypeMD5 [str "a-b"]
               = Ret [mkChecksumFile TypeMD5 StatusCheckSumOK (str "a-b") 0
                        (str "d41d8cd98f00b204e9800998ecf8427e") []])
    by (vm_compute; reflexivity).
  assert (Hw : WriteToFile (quiet (onlyFile (str "a-b") (regular [])) [])
                 [mkChecksumFile TypeMD5 StatusCheckSumOK (str "a-b") 0
                    (str "d41d8cd98f00b204e9800998ecf8427e") []] []
               = Ret (header (quiet (onlyFile (str "a-b") (regular [])) [])
                      ++ str "MD5 (a-b) = d41d8cd98f00b204e9800998ecf8427e"
                      ++ [newline]))
    by (vm_compute; reflexivity).
  assert (Hv : Verify
                 (withManifest (quiet (onlyFile (str "a-b") (regular [])) [])
                    []
                    (header (quiet (onlyFile (str "a-b") (regular [])) [])
                     ++ str "MD5 (a-b) = d41d8cd98f00b204e9800998ecf8427e"
                     ++ [newline]))
                 []
               = Ret [])
    by (vm_compute; reflexivity).
  repeat split; try assumption.
  - exists (regular []), (mkFileInfo false 0). repeat split.
  - intros (created & out & verified & Hc' & Hw' & Hv' & HF).
    rewrite Hc in Hc'. apply Ret_inj in Hc'. subst created.
    rewrite Hw in Hw'. apply Ret_inj in Hw'. subst out.
    rewrite Hv in Hv'. apply Ret_inj in Hv'. subst verified.
    inversion HF.
Qed.

(** C3, amended.  For readable regular files whose names consist of
    word characters and dots only and are no longer than [PATH_MAX],
    hashed by [Create] with MD5, SHA-1 or SHA-256 and written by
    [WriteToFile] to an output that is none of them, in a world where the
    output can be written and the header is one line: [Verify] of the
    written manifest over the unchanged files returns one entry per
    created entry, in order, with the same algorithm and filename, the
    written checksum as wanted and as computed checksum, and status
    [StatusCheckSumOK]. *)
Theorem round_trip (w : World) (t : ChecksumType) (files : list gostring)
  (path : gostring) :
  t = TypeMD5 \/ t = TypeSHA1 \/ t = TypeSHA256 ->
  Forall (fun name => readableRegular w name /\ plainName name /\
                      shortName name) files ->
  ~ In path files ->
  headerFits w ->
  writable w path ->
  RoundTrip w t files path.
Proof.
  intros Ht Hfiles Hpath Hhead Hw.
  apply round_trip_of_length; auto.
  - destruct Ht as [-> | [-> | ->]]; discriminate.
  - rewrite Forall_forall. intros name _. now apply digest_length.
Qed.

Lemma round_trip_witness :
  RoundTrip (quiet twoFiles []) TypeSHA1 [str "a.txt"; str "b.bin"]
            (str "sums.sfv").
Proof.
  apply (round_trip (quiet twoFiles []) TypeSHA1
           [str "a.txt"; str "b.bin"] (str "sums.sfv")).
  - right. left. reflexivity.
  - constructor; [|constructor; [|constructor]].
    + split; [|split].
      * exists (regular (str "abc")), (mkFileInfo false 3). repeat split.
      * split; [discriminate | reflexivity].
      * unfold shortName, PATH_MAX. cbn. lia.
    + split; [|split].
      * exists (regular []), (mkFileInfo false 0). repeat split.
      * split; [discriminate | reflexivity].
      * unfold shortName, PATH_MAX. cbn. lia.
  - intros [H | [H | []]]; vm_compute in H; discriminate.
  - split; vm_compute; reflexivity.
  - split; [intros k; reflexivity | reflexivity].
Defined.

(** The same round trip with CRC32, where the CRC prints as eight
    digits. *)
Example round_trip_crc32 :
  RoundTrip (quiet twoFiles []) TypeCRC32 [str "a.txt"] [].
Proof.
  apply round_trip_of_length.
  - discriminate.
  - constructor; [vm_compute; reflexivity | constructor].
  - constructor; [|constructor]. split; [|split].
    + exists (regular (str "abc")), (mkFileInfo false 3). repeat split.
    + split; [discriminate | reflexivity].
    + unfold shortName, PATH_MAX. cbn. lia.
  - intros [H | []]; vm_compute in H; discriminate.
  - split; vm_compute; reflexivity.
  - split; [intros k; reflexivity | reflexivity].
Qed.

(** With CRC32 over the empty file the written line carries the one
    digit [0]; the parser passes it over and [Verify] returns nothing. *)
Example round_trip_crc32_short :
  Create (quiet twoFiles []) TypeCRC32 [str "b.bin"]
  = Ret [mkChecksumFile TypeCRC32 StatusCheckSumOK (str "b.bin") 0
           (str "0") []]
  /\
  WriteToFile (quiet twoFiles [])
    [mkChecksumFile TypeCRC32 StatusCheckSumOK (str "b.bin") 0 (str "0") []]
    []
  = Ret (header (quiet twoFiles []) ++ str "b.bin 0" ++ [newline])
  /\
  Verify (withManifest (quiet twoFiles []) []
            (header (quiet twoFiles []) ++ str "b.bin 0" ++ [newline])) []
  = Ret [].
Proof. repeat split; vm_compute; reflexivity. Qed.

(** ** Terminal failure states along [Create] and [Verify] *)

Lemma mapM_Forall2 {A B} (f : A -> Result B) (l : list A) :
  forall bs, mapM f l = Ret bs -> Forall2 (fun a b => f a = Ret b) l bs.
Proof.
  induction l as [|a l IH]; intros bs H; cbn [mapM] in H.
  - apply Ret_inj in H. subst. constructor.
  - destruct (f a) as [b| | |] eqn:Ea; try discriminate. cbn [bind] in H.
    destruct (mapM f l) as [bs'| | |]; try discriminate. cbn [bind] in H.
    apply Ret_inj in H. subst. constructor; auto.
Qed.

Lemma terminal_not_OK (s : ChecksumStatus) :
  terminalFailure s = true -> s <> StatusOK /\ s <> StatusCheckSumOK.
Proof. destruct s; intros H; try discriminate H; split; discriminate. Qed.

Lemma verifyOne_terminal (w : World) (cf : ChecksumFile) :
  terminalFailure (Status cf) = true -> verifyOne w cf = Ret cf.
Proof.
  intros H. destruct (terminal_not_OK _ H) as [Hok Hsum].
  unfold verifyOne. rewrite calculateChecksum_skip by assumption.
  cbn [bind]. unfold compareChecksum.
  destruct (ChecksumStatus_eqb (Status cf) StatusCheckSumOK) eqn:E;
    [|reflexivity].
  apply ChecksumStatus_eqb_eq in E. congruence.
Qed.

(** An entry the probe of [Create] leaves in a terminal failure state is
    returned as the probe left it. *)
Lemma Create_keeps_terminal (w : World) (t : ChecksumType)
  (files : list gostring) (results : list ChecksumFile) :
  Create w t files = Ret results ->
  Forall2 (fun name r =>
             terminalFailure (Status (createChecksumFile w t name)) = true ->
             r = createChecksumFile w t name)
          files results.
Proof.
  unfold Create. intros H. apply mapM_Forall2 in H.
  remember (map (createChecksumFile w t) files) as cfs eqn:E.
  revert files E.
  induction H as [|cf r cfs rs Hr _ IH]; intros [|name files] E;
    try discriminate; constructor.
  - cbn [map] in E. injection E as -> _. intros Ht.
    destruct (terminal_not_OK _ Ht) as [Hok _].
    rewrite calculateChecksum_skip in Hr by assumption.
    now apply Ret_inj in Hr.
  - apply IH. cbn [map] in E. now injection E.
Qed.

(** X19.  An entry the parser's probe leaves in a terminal failure
    state is returned by [Verify] as the parser left it: same status, no
    checksum computed. *)
Lemma Verify_keeps_terminal (w : World) (file : gostring) (total : Z)
  (parsed results : list ChecksumFile) :
  parseSfvFile w file = Ret (total, parsed) ->
  Verify w file = Ret results ->
  Forall2 (fun e r => terminalFailure (Status e) = true -> r = e)
          parsed results.
Proof.
  intros Hp Hv. unfold Verify in Hv. rewrite Hp in Hv. cbn [bind] in Hv.
  apply mapM_Forall2 in Hv. clear Hp.
  induction Hv as [|e r es rs Hr _ IH]; constructor; auto.
  intros Ht. rewrite verifyOne_terminal in Hr by assumption.
  now apply Ret_inj in Hr.
Qed.

(* ================================================================== *)
(** * Further properties of the package *)

(** ** Create *)

Lemma createChecksumFile_opens (w : World) (t : ChecksumType)
  (name : gostring) :
  opensAsFile w name = true ->
  createChecksumFile w t name
  = mkChecksumFile t StatusOK name (sizeOf w name) [] [].
Proof.
  unfold opensAsFile, createChecksumFile, sizeOf.
  destruct (fs w name) as [f|]; [|discriminate].
  destruct (Stat f) as [fi|]; [|discriminate].
  destruct (IsDir fi); [discriminate | reflexivity].
Qed.

Lemma createChecksumFile_fails (w : World) (t : ChecksumType)
  (name : gostring) :
  opensAsFile w name = false ->
  terminalFailure (Status (createChecksumFile w t name)) = true /\
  ChecksumType_ (createChecksumFile w t name) = t /\
  Filename (createChecksumFile w t name) = name /\
  Filesize (createChecksumFile w t name) = 0 /\
  Checksum (createChecksumFile w t name) = [] /\
  ChecksumWant (createChecksumFile w t name) = [].
Proof.
  unfold opensAsFile, createChecksumFile.
  destruct (fs w name) as [f|]; [|now repeat split].
  destruct (Stat f) as [fi|]; [|now repeat split].
  destruct (IsDir fi); [now repeat split | discriminate].
Qed.

Lemma calculateChecksum_created (w : World) (t : ChecksumType)
  (name : gostring) :
  t <> TypeUnknown ->
  exists cf,
    calculateChecksum w (createChecksumFile w t name) = Ret cf /\
    createdEntry w t name cf.
Proof.
  intros Ht. unfold createdEntry.
  destruct (opensAsFile w name) eqn:E.
  - rewrite createChecksumFile_opens by assumption.
    rewrite calculateChecksum_known by (cbn; auto).
    eexists. split; [reflexivity|]. cbn.
    repeat split. now apply digest_nonempty.
  - destruct (createChecksumFile_fails w t name E)
      as (Hterm & Hty & Hname & Hsize & Hsum & Hwant).
    rewrite calculateChecksum_skip
      by (intros Hs; rewrite Hs in Hterm; discriminate).
    eexists. split; [reflexivity|]. repeat split; assumption.
Qed.

Lemma Create_entries (w : World) (t : ChecksumType) (files : list gostring) :
  t <> TypeUnknown ->
  exists cfs,
    Create w t files = Ret cfs /\ Forall2 (createdEntry w t) files cfs.
Proof.
  intros Ht. unfold Create.
  induction files as [|name files (cfs & Hcfs & HF)].
  - exists []. split; [reflexivity | constructor].
  - destruct (calculateChecksum_created w t name Ht) as (cf & Hcf & Hent).
    exists (cf :: cfs). cbn [map mapM]. rewrite Hcf, Hcfs.
    split; [reflexivity | now constructor].
Qed.

(** X1.  With a known algorithm [Create] returns, one entry per path and
    in the order of the paths, each with the algorithm, the path as
    filename and no wanted checksum.  A path that opens as a file comes
    out [StatusCheckSumOK] with the non-empty digest of the bytes read;
    any other path comes out as the probe left it: in a terminal failure
    state, with size [0] and an empty checksum. *)
Theorem Create_known (w : World) (t : ChecksumType) (files : list gostring) :
  t <> TypeUnknown ->
  exists cfs,
    Create w t files = Ret cfs /\ Forall2 (createdEntry w t) files cfs.
Proof.
  intros Ht. destruct (Create_entries w t files Ht) as (cfs & Hc & HF).
  exists cfs. now split.
Qed.

Lemma Create_known_witness :
  exists cfs,
    Create (quiet twoFiles []) TypeMD5 [str "a.txt"; str "none"] = Ret cfs /\
    Forall2 (createdEntry (quiet twoFiles []) TypeMD5)
            [str "a.txt"; str "none"] cfs.
Proof.
  apply (Create_known (quiet twoFiles []) TypeMD5 [str "a.txt"; str "none"]).
  discriminate.
Defined.

(** X2.  Without an algorithm ([TypeUnknown]) [Create] does not return
    as soon as one path opens as a file: hashing that entry reads with an
    empty buffer for ever.  When no path opens as a file it returns the
    entries as the probe left them. *)
Theorem Create_unknown (w : World) (files : list gostring) :
  Create w TypeUnknown files
  = if existsb (opensAsFile w) files then Diverges
    else Ret (map (createChecksumFile w TypeUnknown) files).
Proof.
  unfold Create. induction files as [|name files IH]; [reflexivity|].
  cbn [map mapM existsb].
  destruct (opensAsFile w name) eqn:E; cbn [orb].
  - rewrite createChecksumFile_opens by assumption.
    now rewrite calculateChecksum_unknown_type.
  - destruct (createChecksumFile_fails w TypeUnknown name E) as (Hterm & _).
    rewrite calculateChecksum_skip
      by (intros Hs; rewrite Hs in Hterm; discriminate).
    cbn [bind]. rewrite IH.
    now destruct (existsb (opensAsFile w) files).
Qed.

(** ** The [create] command *)

Lemma StringToType_known (s : gostring) :
  StringToType s <> TypeUnknown <-> In s selectors.
Proof.
  unfold StringToType, selectors. cbn [In].
  destruct (gostring_eqb s (str "crc32")) eqn:E1;
    [apply gostring_eqb_eq in E1; split; [auto | discriminate]|].
  destruct (gostring_eqb s (str "md5")) eqn:E2;
    [apply gostring_eqb_eq in E2; split; [auto | discriminate]|].
  destruct (gostring_eqb s (str "sha1")) eqn:E3;
    [apply gostring_eqb_eq in E3; split; [auto | discriminate]|].
  destruct (gostring_eqb s (str "sha256")) eqn:E4;
    [apply gostring_eqb_eq in E4; split; [auto 6 | discriminate]|].
  apply gostring_eqb_neq in E1, E2, E3, E4.
  split; [congruence|].
  intros [H | [H | [H | [H | []]]]]; congruence.
Qed.

Lemma createArgs_usable (typeValue : gostring) (args : list gostring) :
  createArgs typeValue args = None -> StringToType typeValue <> TypeUnknown.
Proof.
  unfold createArgs. destruct (length args <? 1)%nat; [discriminate|].
  destruct (StringToType typeValue); discriminate.
Qed.

(** X3.  The argument check of the [create] command accepts exactly a
    non-empty list of files together with one of the selectors [crc32],
    [md5], [sha1], [sha256], spelled exactly so. *)
Theorem createArgs_accepts (typeValue : gostring) (args : list gostring) :
  createArgs typeValue args = None <-> args <> [] /\ In typeValue selectors.
Proof.
  unfold createArgs. rewrite <- StringToType_known.
  destruct args as [|a args]; cbn [length Nat.ltb Nat.leb].
  - split; [discriminate | intros [H _]; congruence].
  - destruct (StringToType typeValue); split;
      try discriminate; try (intros [_ H]; congruence);
      intros _; split; discriminate.
Qed.

Lemma writeEntries_ends (w : World) (cfs : list ChecksumFile) :
  forall (k : nat) (out : gostring),
    writeEntries w cfs k out = Fatal \/
    exists text, writeEntries w cfs k out = Ret text.
Proof.
  induction cfs as [|cf cfs IH]; intros k out; cbn [writeEntries].
  - right. eauto.
  - destruct (ChecksumStatus_eqb (Status cf) StatusCheckSumOK); [|apply IH].
    destruct (formatLine cf); [|apply IH].
    destruct (write_fails w k); [now left | apply IH].
Qed.

Lemma WriteToFile_ends (w : World) (cfs : list ChecksumFile)
  (path : gostring) :
  WriteToFile w cfs path = Fatal \/
  exists text, WriteToFile w cfs path = Ret text.
Proof.
  unfold WriteToFile.
  destruct (negb (gostring_eqb path []) && create_fails w path);
    [now left | apply writeEntries_ends].
Qed.

(** X4.  The [create] command, run as the framework runs it, never hangs
    and never panics: when the argument check refuses, its error is the
    result; when it accepts, the run ends with the written text or with a
    fatal output error. *)
Theorem createCmd_ends (w : World) (typeValue file : gostring)
  (args : list gostring) :
  (createArgs typeValue args <> None ->
   exists err, createCmd w typeValue file args = Ret (inl err)) /\
  (createArgs typeValue args = None ->
   createCmd w typeValue file args = Fatal \/
   exists text, createCmd w typeValue file args = Ret (inr text)).
Proof.
  unfold createCmd. split.
  - destruct (createArgs typeValue args) as [err|]; [eauto | congruence].
  - intros Hacc. rewrite Hacc.
    apply createArgs_usable in Hacc.
    unfold createRun.
    destruct (Create_entries w (StringToType typeValue) args Hacc)
      as (cfs & -> & _).
    cbn [bind].
    destruct (WriteToFile_ends w cfs file) as [-> | (text & ->)];
      [now left | right; exists text; reflexivity].
Qed.

(** ** The manifest parser *)

Lemma comment_test (c : byte) :
  gostring_eqb [c] (str ";") = Ascii.eqb c ";"%char.
Proof. cbn. apply andb_true_r. Qed.

(** The loop over the lines in closed form. *)
Lemma parseLines_closed (w : World) (lines : list gostring) :
  forall (total : Z) (acc : list ChecksumFile),
    parseLines w lines total acc
    = if existsb isEmptyLine lines then Panic
      else Ret (fold_left (fun a cf => add64 a (Filesize cf))
                          (flat_map (lineEntry w) lines) total,
                acc ++ flat_map (lineEntry w) lines).
Proof.
  induction lines as [|line lines IH]; intros total acc.
  - cbn. now rewrite app_nil_r.
  - destruct line as [|c l]; [reflexivity|].
    cbn [parseLines existsb isEmptyLine orb flat_map lineEntry].
    rewrite comment_test.
    destruct (Ascii.eqb c ";"%char); [apply IH|].
    destruct (classifyLine (c :: l)) as [[[t f] d]|]; [|apply IH].
    rewrite IH. destruct (existsb isEmptyLine lines); [reflexivity|].
    cbn [app fold_left]. now rewrite <- app_assoc.
Qed.

Lemma parseSfvFile_closed (w : World) (file : gostring) :
  parseSfvFile w file
  = match manifestInput w file with
    | None => Fatal
    | Some input =>
        if existsb isEmptyLine (ScanLines input) then Panic
        else Ret (totalFileSize (flat_map (lineEntry w) (ScanLines input)),
                  flat_map (lineEntry w) (ScanLines input))
    end.
Proof.
  unfold parseSfvFile, manifestInput, totalFileSize.
  destruct (gostring_eqb file []); cbn [bind];
    [apply parseLines_closed|].
  destruct (fs w file); cbn [bind option_map];
    [apply parseLines_closed | reflexivity].
Qed.

(** X5.  [parseSfvFile] is fatal exactly when a manifest path is given
    and cannot be opened, and panics exactly when the manifest opens and
    a line the scanner delivers is empty; in every other case it
    returns. *)
Theorem parseSfvFile_failures (w : World) (file : gostring) :
  (parseSfvFile w file = Fatal <-> file <> [] /\ fs w file = None) /\
  (parseSfvFile w file = Panic <->
   exists input, manifestInput w file = Some input /\
                 In [] (ScanLines input)) /\
  parseSfvFile w file <> Diverges.
Proof.
  rewrite parseSfvFile_closed. unfold manifestInput.
  assert (Hempty : forall lines,
             existsb isEmptyLine lines = true <-> In [] lines).
  { intros lines. rewrite existsb_exists. split.
    - intros (l & Hin & Hl). now destruct l.
    - intros Hin. now exists []. }
  destruct (gostring_eqb file []) eqn:Ef.
  - apply gostring_eqb_eq in Ef. subst file.
    destruct (existsb isEmptyLine (ScanLines (stdin w))) eqn:E.
    + repeat split; try discriminate; try (intros [H _]; congruence).
      intros _. exists (stdin w). split; [reflexivity | now apply Hempty].
    + repeat split; try discriminate; try (intros [H _]; congruence).
      intros (input & [= <-] & Hin). apply Hempty in Hin. congruence.
  - apply gostring_eqb_neq in Ef.
    destruct (fs w file) as [f|]; cbn [option_map].
    + destruct (existsb isEmptyLine (ScanLines (readable f))) eqn:E.
      * repeat split; try discriminate; try (intros [_ H]; congruence).
        intros _. exists (readable f). split; [reflexivity | now apply Hempty].
      * repeat split; try discriminate; try (intros [_ H]; congruence).
        intros (input & [= <-] & Hin). apply Hempty in Hin. congruence.
    + repeat split; try discriminate; auto.
      intros (input & H & _). discriminate.
Qed.

(** X6.  When [parseSfvFile] returns, its entries are, in the order of
    the manifest, the probed entries of the lines that are no comment and
    match a pattern (one entry per such line, repeated lines repeated),
    and its total is the [int64] sum of the sizes of these entries. *)
Theorem parseSfvFile_returns (w : World) (file : gostring) (total : Z)
  (entries : list ChecksumFile) :
  parseSfvFile w file = Ret (total, entries) ->
  exists input,
    manifestInput w file = Some input /\
    entries = flat_map (lineEntry w) (ScanLines input) /\
    total = totalFileSize entries.
Proof.
  rewrite parseSfvFile_closed.
  destruct (manifestInput w file) as [input|]; [|discriminate].
  destruct (existsb isEmptyLine (ScanLines input)); [discriminate|].
  intros [= <- <-]. exists input. repeat split.
Qed.

Lemma parseSfvFile_returns_witness :
  exists input,
    manifestInput (quiet twoFiles (str "a.txt 352441c2")) [] = Some input /\
    [mkChecksumFile TypeCRC32 StatusOK (str "a.txt") 3 [] (str "352441c2")]
    = flat_map (lineEntry (quiet twoFiles (str "a.txt 352441c2")))
               (ScanLines input) /\
    3 = totalFileSize
          [mkChecksumFile TypeCRC32 StatusOK (str "a.txt") 3 []
                          (str "352441c2")].
Proof.
  apply (parseSfvFile_returns (quiet twoFiles (str "a.txt 352441c2")) [] 3
           [mkChecksumFile TypeCRC32 StatusOK (str "a.txt") 3 []
                           (str "352441c2")]).
  vm_compute. reflexivity.
Defined.

(** ** Verify *)

Lemma hexdigit_lower_hex (d : Z) :
  0 <= d < 16 -> is_lower_hex (Fmt.hexdigit d) = true.
Proof.
  intros H.
  assert (E : d = 0 \/ d = 1 \/ d = 2 \/ d = 3 \/ d = 4 \/ d = 5 \/ d = 6 \/
              d = 7 \/ d = 8 \/ d = 9 \/ d = 10 \/ d = 11 \/ d = 12 \/
              d = 13 \/ d = 14 \/ d = 15) by lia.
  repeat (destruct E as [-> | E]; [reflexivity|]). now subst.
Qed.

Lemma hex_bytes_lower_hex (bs : list Z) :
  Forall (fun b => 0 <= b < 256) bs ->
  forallb is_lower_hex (Fmt.hex_bytes bs) = true.
Proof.
  unfold Fmt.hex_bytes. induction 1 as [|b bs Hb _ IH]; [reflexivity|].
  cbn [flat_map app forallb]. rewrite IH.
  rewrite !hexdigit_lower_hex; [reflexivity| |].
  - apply Z.mod_pos_bound. lia.
  - split; [apply Z.div_pos; lia | apply Z.div_lt_upper_bound; lia].
Qed.

Lemma hex_digits_lower_hex (fuel : nat) :
  forall (u : Z) (acc : gostring),
    forallb is_lower_hex acc = true ->
    forallb is_lower_hex (Fmt.hex_digits fuel u acc) = true.
Proof.
  induction fuel as [|fuel IH]; intros u acc Hacc; [assumption|].
  cbn [Fmt.hex_digits].
  assert (H : forallb is_lower_hex (Fmt.hexdigit (u mod 16) :: acc) = true).
  { cbn [forallb]. rewrite Hacc, hexdigit_lower_hex; [reflexivity|].
    apply Z.mod_pos_bound. lia. }
  destruct (u / 16 =? 0); [assumption | now apply IH].
Qed.

(** Every digest string is lowercase hexadecimal. *)
Lemma digest_lower_hex (t : ChecksumType) (m : list byte) :
  forallb is_lower_hex (digest t m) = true.
Proof.
  destruct t; cbn [digest].
  - reflexivity.
  - now apply hex_digits_lower_hex.
  - apply hex_bytes_lower_hex, md5_sum_range.
  - apply hex_bytes_lower_hex, sha1_sum_range.
  - apply hex_bytes_lower_hex, sha256_sum_range.
Qed.

Lemma verifyChecksumFile_fields (w : World) (e : ChecksumFile) :
  ChecksumType_ (verifyChecksumFile w e) = ChecksumType_ e /\
  Filename (verifyChecksumFile w e) = Filename e /\
  Checksum (verifyChecksumFile w e) = Checksum e /\
  ChecksumWant (verifyChecksumFile w e) = ChecksumWant e.
Proof.
  unfold verifyChecksumFile.
  destruct (fs w (Filename e)) as [f|]; [|now repeat split].
  destruct (Stat f) as [fi|]; [|now repeat split].
  destruct (IsDir fi); now repeat split.
Qed.

Lemma lineEntry_parsed (w : World) (line : gostring) :
  Forall parsedEntry (lineEntry w line).
Proof.
  unfold lineEntry. destruct line as [|c l]; [constructor|].
  destruct (Ascii.eqb c ";"%char); [constructor|].
  destruct (classifyLine (c :: l)) as [[[t f] d]|] eqn:E; [|constructor].
  pose proof (classify_known _ _ _ _ E) as Ht.
  destruct (classify_sound _ _ _ _ E) as (_ & Hplain & Hword & Hlen).
  constructor; [|constructor].
  destruct (verifyChecksumFile_fields w
              (mkChecksumFile t StatusUnknown f 0 [] d))
    as (Hty & Hname & Hsum & Hwant).
  cbn [ChecksumType_ Filename Checksum ChecksumWant] in *.
  unfold parsedEntry. rewrite Hty, Hname, Hsum, Hwant.
  repeat split; auto.
  - now apply verifyChecksumFile_probed.
  - now apply verifyChecksumFile_probed.
  - apply Hplain.
  - apply Hplain.
Qed.

Lemma flat_map_Forall {A B} (P : B -> Prop) (f : A -> list B) (l : list A) :
  (forall a, Forall P (f a)) -> Forall P (flat_map f l).
Proof.
  intros H. induction l as [|a l IH]; [constructor|].
  cbn [flat_map]. apply Forall_app. auto.
Qed.

(** What [Verify] does with one entry of the parser. *)
Lemma verifyOne_parsed (w : World) (e : ChecksumFile) :
  parsedEntry e ->
  exists r,
    verifyOne w e = Ret r /\ verifiedEntry r /\
    (Status r = StatusCheckSumOK ->
     forallb is_lower_hex (ChecksumWant r) = true).
Proof.
  intros ((Ht & Hs) & Hplain & Hword & Hlen & Hsum).
  unfold verifyOne. cbn [In] in Hs.
  destruct Hs as [Hs | Hs].
  - symmetry in Hs. rewrite calculateChecksum_known by assumption.
    cbn [bind]. unfold compareChecksum.
    cbn [Status Checksum ChecksumWant set_Checksum set_Status
         ChecksumStatus_eqb andb].
    pose proof (digest_nonempty (ChecksumType_ e)
                  (streamed w (Filename e)) Ht) as Hne.
    destruct (gostring_eqb _ (ChecksumWant e)) eqn:E; cbn [negb].
    + apply gostring_eqb_eq in E. eexists. split; [reflexivity|].
      unfold verifiedEntry. cbn. repeat split; auto; try congruence.
      * apply Hplain.
      * apply Hplain.
      * intros _. rewrite <- E. apply digest_lower_hex.
    + apply gostring_eqb_neq in E. eexists. split; [reflexivity|].
      unfold verifiedEntry. cbn. repeat split; auto; try congruence.
      * apply Hplain.
      * apply Hplain.
  - assert (Hnok : Status e <> StatusOK /\ Status e <> StatusCheckSumOK /\
                   Status e <> StatusCheckSumNoMatch)
      by (repeat split; intros E; rewrite E in Hs; intuition discriminate).
    destruct Hnok as (Hnok & Hnsum & Hnno).
    rewrite calculateChecksum_skip by assumption. cbn [bind].
    unfold compareChecksum.
    destruct (ChecksumStatus_eqb (Status e) StatusCheckSumOK) eqn:E;
      [apply ChecksumStatus_eqb_eq in E; congruence|].
    cbn [andb]. exists e. split; [reflexivity|].
    unfold verifiedEntry.
    repeat split; auto; try congruence; try tauto; try apply Hplain;
      try (cbn [In]; tauto); try (intros [H | H]; congruence).
Qed.

Lemma mapM_verifyOne_parsed (w : World) (es : list ChecksumFile) :
  Forall parsedEntry es ->
  exists rs,
    mapM (verifyOne w) es = Ret rs /\ length rs = length es /\
    Forall verifiedEntry rs /\
    Forall (fun r => Status r = StatusCheckSumOK ->
                     forallb is_lower_hex (ChecksumWant r) = true) rs.
Proof.
  induction 1 as [|e es He _ (rs & Hrs & Hlen & Hall & Hlow)].
  - exists []. repeat split; constructor.
  - destruct (verifyOne_parsed w e He) as (r & Hr & Hver & Hl).
    exists (r :: rs). cbn [mapM]. rewrite Hr, Hrs. cbn [bind length].
    repeat split; auto.
Qed.

(** X7.  [Verify] always ends.  It is fatal when a manifest path is
    given and cannot be opened, panics when the manifest opens and
    holds an empty line, and otherwise returns one entry per line that is
    no comment and matches a pattern. *)
Theorem Verify_ends (w : World) (file : gostring) :
  match manifestInput w file with
  | None => Verify w file = Fatal
  | Some input =>
      if existsb isEmptyLine (ScanLines input) then Verify w file = Panic
      else exists results,
             Verify w file = Ret results /\
             length results
             = length (flat_map (lineEntry w) (ScanLines input))
  end.
Proof.
  unfold Verify. rewrite parseSfvFile_closed.
  destruct (manifestInput w file) as [input|]; [|reflexivity].
  destruct (existsb isEmptyLine (ScanLines input)); [reflexivity|].
  cbn [bind].
  destruct (mapM_verifyOne_parsed w (flat_map (lineEntry w) (ScanLines input)))
    as (rs & Hrs & Hlen & _).
  { apply flat_map_Forall. intros line. apply lineEntry_parsed. }
  exists rs. now split.
Qed.

Lemma Verify_returned (w : World) (file : gostring)
  (results : list ChecksumFile) :
  Verify w file = Ret results ->
  Forall verifiedEntry results /\
  Forall (fun r => Status r = StatusCheckSumOK ->
                   forallb is_lower_hex (ChecksumWant r) = true) results.
Proof.
  unfold Verify. rewrite parseSfvFile_closed.
  destruct (manifestInput w file) as [input|]; [|discriminate].
  destruct (existsb isEmptyLine (ScanLines input)); [discriminate|].
  cbn [bind]. intros H.
  destruct (mapM_verifyOne_parsed w (flat_map (lineEntry w) (ScanLines input)))
    as (rs & Hrs & _ & Hall & Hlow).
  { apply flat_map_Forall. intros line. apply lineEntry_parsed. }
  rewrite Hrs in H. apply Ret_inj in H. subst. now split.
Qed.

(** X8.  Every entry [Verify] returns has a known algorithm, a filename
    of word characters and dots, a wanted checksum of word characters of
    the length of its algorithm, and one of the five statuses
    [StatusCheckSumOK], [StatusCheckSumNoMatch], [StatusNotFound],
    [StatusNotFile], [StatusStatFailed].  Its computed checksum is
    non-empty exactly in the first two; it equals the wanted one in the
    first and differs from it in the second. *)
Theorem Verify_results (w : World) (file : gostring)
  (results : list ChecksumFile) :
  Verify w file = Ret results -> Forall verifiedEntry results.
Proof. intros H. now apply Verify_returned in H. Qed.

Lemma Verify_results_witness :
  Forall verifiedEntry
    [mkChecksumFile TypeCRC32 StatusCheckSumNoMatch (str "a.txt") 3
                    (str "352441c2") (str "00000000")].
Proof.
  apply (Verify_results
           (quiet (onlyFile (str "a.txt") (regular (str "abc")))
                  (str "a.txt 00000000")) []).
  vm_compute. reflexivity.
Defined.

(** X9.  [Verify] compares the checksums as strings and the computed one
    is lowercase hexadecimal: an entry comes back [StatusCheckSumOK] only
    if its wanted checksum consists of the characters [0-9a-f], so a
    manifest checksum with an uppercase digit never verifies. *)
Theorem Verify_OK_lower_hex (w : World) (file : gostring)
  (results : list ChecksumFile) :
  Verify w file = Ret results ->
  Forall (fun r => Status r = StatusCheckSumOK ->
                   forallb is_lower_hex (ChecksumWant r) = true) results.
Proof. intros H. now apply Verify_returned in H. Qed.

Lemma Verify_OK_lower_hex_witness :
  Forall (fun r => Status r = StatusCheckSumOK ->
                   forallb is_lower_hex (ChecksumWant r) = true)
    [mkChecksumFile TypeCRC32 StatusCheckSumNoMatch (str "a.txt") 3
                    (str "352441c2") (str "352441C2")].
Proof.
  apply (Verify_OK_lower_hex
           (quiet (onlyFile (str "a.txt") (regular (str "abc")))
                  (str "a.txt 352441C2")) []).
  vm_compute. reflexivity.
Defined.

(** ** WriteToFile *)

Lemma formatLine_printable (cf : ChecksumFile) :
  ChecksumStatus_eqb (Status cf) StatusCheckSumOK = true ->
  formatLine cf = if printable cf then Some (entryLine cf) else None.
Proof.
  intros Hs. unfold printable, entryLine. rewrite Hs. cbn [andb].
  destruct (ChecksumType_ cf) eqn:Et.
  - unfold formatLine. now rewrite Et.
  - rewrite <- Et. apply formatLine_known. congruence.
  - rewrite <- Et. apply formatLine_known. congruence.
  - rewrite <- Et. apply formatLine_known. congruence.
  - rewrite <- Et. apply formatLine_known. congruence.
Qed.

(** The loop over the entries in closed form. *)
Lemma writeEntries_closed (w : World) (cfs : list ChecksumFile) :
  forall (k : nat) (out : gostring),
    writeEntries w cfs k out
    = if existsb (write_fails w) (seq k (length (filter printable cfs)))
      then Fatal
      else Ret (out ++ concat (map entryLine (filter printable cfs))).
Proof.
  induction cfs as [|cf cfs IH]; intros k out.
  - cbn. now rewrite app_nil_r.
  - cbn [writeEntries filter].
    destruct (ChecksumStatus_eqb (Status cf) StatusCheckSumOK) eqn:Es.
    + rewrite formatLine_printable by assumption.
      destruct (printable cf); [|apply IH].
      cbn [length seq existsb map concat].
      destruct (write_fails w k); [reflexivity|]. cbn [orb].
      rewrite IH. now rewrite <- app_assoc.
    + unfold printable. rewrite Es. cbn [andb]. apply IH.
Qed.

(** X10.  [WriteToFile] is fatal when a path is given and cannot be
    created, or when the write of one of the lines fails.  Otherwise it
    writes the header (left out, without an error, when its own write
    fails) and then, in order, one line for every entry that is
    [StatusCheckSumOK] and has a known algorithm; no other entry has a
    part in what is written. *)
Theorem WriteToFile_outcome (w : World) (cfs : list ChecksumFile)
  (path : gostring) :
  WriteToFile w cfs path
  = if negb (gostring_eqb path []) && create_fails w path then Fatal
    else if existsb (write_fails w)
                    (seq 1 (length (filter printable cfs))) then Fatal
    else Ret ((if write_fails w 0 then [] else header w)
              ++ concat (map entryLine (filter printable cfs))).
Proof.
  unfold WriteToFile.
  destruct (negb (gostring_eqb path []) && create_fails w path);
    [reflexivity | apply writeEntries_closed].
Qed.

(** ** The [create] command: what reaches the output *)

Lemma created_lines (w : World) (t : ChecksumType) (names : list gostring)
  (cfs : list ChecksumFile) :
  t <> TypeUnknown ->
  Forall2 (createdEntry w t) names cfs ->
  map entryLine (filter printable cfs)
  = map (fun name => lineOf w t name ++ [newline])
        (filter (opensAsFile w) names).
Proof.
  intros Ht. induction 1 as [|name cf names cfs Hent _ IH]; [reflexivity|].
  destruct Hent as (Hty & Hname & _ & Hrest). cbn [filter].
  destruct (opensAsFile w name).
  - destruct Hrest as (Hs & Hsum & _).
    assert (Hp : printable cf = true).
    { unfold printable. rewrite Hs, Hty. now destruct t. }
    rewrite Hp. cbn [map]. rewrite IH. f_equal.
    unfold entryLine, lineOf. now rewrite Hty, Hname, Hsum.
  - destruct Hrest as (_ & Hterm & _).
    assert (Hp : printable cf = false).
    { unfold printable. now destruct (Status cf). }
    now rewrite Hp.
Qed.

Lemma existsb_none {A} (f : A -> bool) (l : list A) :
  (forall a, f a = false) -> existsb f l = false.
Proof.
  intros H. induction l as [|a l IH]; [reflexivity|].
  cbn [existsb]. now rewrite H, IH.
Qed.

(** X11.  Run with a valid selector on an output that can be written,
    the [create] command writes the header and then one line per file
    argument that opens as a file, in the order of the arguments, in the
    layout of the algorithm; an argument that is missing, a directory or
    cannot be examined leaves no line. *)
Theorem createRun_output (w : World) (typeValue file : gostring)
  (args : list gostring) :
  In typeValue selectors ->
  writable w file ->
  createRun w typeValue file args
  = Ret (header w
         ++ concat (map (fun name =>
                           lineOf w (StringToType typeValue) name
                           ++ [newline])
                        (filter (opensAsFile w) args))).
Proof.
  intros Hsel [Hw Hc]. apply StringToType_known in Hsel.
  unfold createRun.
  destruct (Create_entries w (StringToType typeValue) args Hsel)
    as (cfs & -> & HF).
  cbn [bind]. unfold WriteToFile.
  rewrite Hc, andb_false_r, Hw, writeEntries_closed.
  rewrite existsb_none by assumption.
  now rewrite (created_lines w _ args cfs Hsel HF).
Qed.

Lemma createRun_output_witness :
  createRun (quiet twoFiles []) (str "sha1") []
            [str "a.txt"; str "none"; str "b.bin"]
  = Ret (header (quiet twoFiles [])
         ++ concat (map (fun name =>
                           lineOf (quiet twoFiles [])
                                  (StringToType (str "sha1")) name
                           ++ [newline])
                        (filter (opensAsFile (quiet twoFiles []))
                                [str "a.txt"; str "none"; str "b.bin"]))).
Proof.
  apply (createRun_output (quiet twoFiles []) (str "sha1") []
           [str "a.txt"; str "none"; str "b.bin"]).
  - right. right. left. reflexivity.
  - split; [intros k; reflexivity | reflexivity].
Defined.

(** ** The line format *)

(** X12.  The parser accepts a line as algorithm [t] with filename [f]
    and checksum [d] if and only if the line is the layout of [t] around
    [f] and [d], [f] is a non-empty run of word characters and dots, and
    [d] consists of word characters and has the length of [t]: on such
    fields parsing undoes printing, and printing undoes parsing. *)
Theorem classifyLine_iff (line : gostring) (t : ChecksumType)
  (f d : gostring) :
  classifyLine line = Some (t, f, d) <->
  t <> TypeUnknown /\ line = renderLine t f d /\ plainName f /\
  forallb is_word d = true /\ length d = digestLen t.
Proof.
  split.
  - intros H. split; [now apply classify_known in H|].
    now apply classify_sound.
  - intros (Ht & -> & Hf & Hd & Hlen). now apply classify_rendered.
Qed.

Lemma reMd5_classified (line : gostring) (caps : list gostring) :
  submatches reMd5 line = Some caps ->
  exists f d, classifyLine line = Some (TypeMD5, f, d).
Proof.
  intros E. apply submatches_sound in E. cbn [shaped reMd5] in E.
  destruct E as (s0 & -> & c1 & caps1 & s1 & -> & -> & Hc1 & Hn1 &
                 s2 & -> & c2 & caps2 & s3 & -> & -> & Hc2 & Hl2 & -> & ->).
  exists c1, c2. rewrite app_nil_r.
  now apply (classify_md5 c1 c2).
Qed.

Lemma reSha1_classified (line : gostring) (caps : list gostring) :
  submatches reSha1 line = Some caps ->
  exists f d, classifyLine line = Some (TypeSHA1, f, d).
Proof.
  intros E. apply submatches_sound in E. cbn [shaped reSha1] in E.
  destruct E as (c1 & caps1 & s1 & -> & -> & Hc1 & Hl1 & s2 & -> &
                 c2 & caps2 & s3 & -> & -> & Hc2 & Hn2 & -> & ->).
  exists c2, c1. rewrite app_nil_r.
  now apply (classify_sha1 c2 c1).
Qed.

Lemma reSha256_classified (line : gostring) (caps : list gostring) :
  submatches reSha256 line = Some caps ->
  exists f d, classifyLine line = Some (TypeSHA256, f, d).
Proof.
  intros E. apply submatches_sound in E. cbn [shaped reSha256] in E.
  destruct E as (c1 & caps1 & s1 & -> & -> & Hc1 & Hl1 & s2 & -> &
                 c2 & caps2 & s3 & -> & -> & Hc2 & Hn2 & -> & ->).
  exists c2, c1. rewrite app_nil_r.
  now apply (classify_sha256 c2 c1).
Qed.

(** X13.  No line matches two of the four patterns, so the order in
    which the parser tries them decides nothing. *)
Theorem patterns_exclusive (line : gostring) :
  (length (filter (fun re => MatchString re line) patterns) <= 1)%nat.
Proof.
  unfold patterns, MatchString. cbn [filter].
  destruct (submatches reCrc32 line) eqn:E1;
    destruct (submatches reMd5 line) eqn:E2;
    destruct (submatches reSha1 line) eqn:E3;
    destruct (submatches reSha256 line) eqn:E4;
    cbn [length]; try lia; exfalso;
    first [ destruct (reSha256_classified _ _ E4) as (f & d & H)
          | destruct (reSha1_classified _ _ E3) as (f & d & H)
          | destruct (reMd5_classified _ _ E2) as (f & d & H) ];
    rewrite classifyLine_classifyBy in H; unfold classifyBy in H;
    rewrite ?E1, ?E2, ?E3, ?E4 in H; discriminate.
Qed.

(** ** CRC32 lines *)

Lemma split_at_space (a a' s s' : gostring) :
  forallb is_word_dot a = true ->
  forallb is_word_dot a' = true ->
  a ++ " "%char :: s = a' ++ " "%char :: s' ->
  a = a' /\ s = s'.
Proof.
  intros Ha Ha' H.
  assert (Hlen : length a = length a').
  { apply (f_equal (run is_word_dot)) in H.
    now rewrite !run_stop in H by (auto; reflexivity). }
  assert (Eq : a = a').
  { rewrite <- (firstn_exact a (" "%char :: s)), H, Hlen.
    apply firstn_exact. }
  subst a'. apply app_inv_head in H. now injection H.
Qed.

(** A line of the CRC32 layout is read in that form when its checksum
    field has eight characters, and by no pattern otherwise. *)
Lemma classify_crc32_layout (f d : gostring) :
  plainName f -> forallb is_word d = true ->
  classifyLine (renderLine TypeCRC32 f d)
  = if (length d =? 8)%nat then Some (TypeCRC32, f, d) else None.
Proof.
  intros Hf Hd. destruct (length d =? 8)%nat eqn:El.
  - apply Nat.eqb_eq in El. now apply classify_crc32.
  - apply Nat.eqb_neq in El.
    destruct (classifyLine (renderLine TypeCRC32 f d))
      as [[[t f'] d']|] eqn:E; [exfalso | reflexivity].
    pose proof (classify_known _ _ _ _ E) as Ht.
    destruct (classify_sound _ _ _ _ E) as (Hline & [_ Hf'] & Hd' & Hlen').
    destruct Hf as [_ Hf].
    unfold renderLine in Hline. revert Hline. eval_str.
    destruct t; try congruence; cbn [app]; intros Hline.
    + apply split_at_space in Hline as [_ <-]; auto.
    + change ("M"%char :: "D"%char :: "5"%char :: " "%char :: "("%char
              :: f' ++ ")"%char :: " "%char :: "="%char :: " "%char :: d')
        with (["M"; "D"; "5"]%char ++ " "%char
              :: ("("%char :: f' ++ ")"%char :: " "%char :: "="%char
                  :: " "%char :: d')) in Hline.
      apply split_at_space in Hline as [_ ->]; auto. discriminate.
    + apply split_at_space in Hline as [_ ->];
        auto using all_word_all_word_dot. discriminate.
    + apply split_at_space in Hline as [_ ->];
        auto using all_word_all_word_dot. discriminate.
Qed.

Lemma table_step_nonneg (c : Z) : 0 <= c -> 0 <= CRC32.table_step c.
Proof.
  intros H. unfold CRC32.table_step.
  destruct (Z.testbit c 0).
  - apply Z.lxor_nonneg. split; intros _;
      [unfold CRC32.IEEE; lia | now apply Z.shiftr_nonneg].
  - now apply Z.shiftr_nonneg.
Qed.

Lemma update_byte_nonneg (c : Z) (v : byte) :
  0 <= c -> 0 <= CRC32.update_byte c v.
Proof.
  intros H. unfold CRC32.update_byte, CRC32.table_entry.
  apply Z.lxor_nonneg. split; intros _.
  - now apply Z.shiftr_nonneg.
  - repeat apply table_step_nonneg.
    apply Z.lxor_nonneg. split; intros _.
    + unfold byte_val. lia.
    + apply Z.mod_pos_bound. lia.
Qed.

Lemma crc32_checksum_nonneg (p : list byte) : 0 <= CRC32.checksum p.
Proof.
  unfold CRC32.checksum, CRC32.update, Word.not.
  assert (H : forall c, 0 <= c -> 0 <= fold_left CRC32.update_byte p c).
  { induction p as [|v p IH]; intros c Hc; [assumption|].
    cbn [fold_left]. apply IH. now apply update_byte_nonneg. }
  apply Z.lxor_nonneg. split; intros _; [unfold Word.mask; lia|].
  apply H. apply Z.lxor_nonneg. unfold Word.mask. split; lia.
Qed.

(** [%x] fills the digits allowed exactly for the numbers that need
    them. *)
Lemma hex_digits_full (fuel : nat) :
  forall (u : Z) (acc : gostring),
    0 <= u ->
    (length (Fmt.hex_digits (S (S fuel)) u acc)
     = (length acc + S (S fuel))%nat
     <-> 16 ^ Z.of_nat (S fuel) <= u).
Proof.
  induction fuel as [|fuel IH]; intros u acc Hu.
  - cbn [Fmt.hex_digits]. change (16 ^ Z.of_nat 1) with 16.
    pose proof (Z.div_mod u 16 ltac:(lia)) as Hdm.
    pose proof (Z.mod_pos_bound u 16 ltac:(lia)) as Hm.
    destruct (u / 16 =? 0) eqn:E.
    + apply Z.eqb_eq in E. cbn [length]. lia.
    + apply Z.eqb_neq in E.
      assert (0 <= u / 16) by (apply Z.div_pos; lia).
      destruct (u / 16 / 16 =? 0); cbn [length]; lia.
  - remember (S (S fuel)) as n eqn:En. cbn [Fmt.hex_digits].
    pose proof (Z.div_mod u 16 ltac:(lia)) as Hdm.
    pose proof (Z.mod_pos_bound u 16 ltac:(lia)) as Hm.
    assert (Hq : 0 <= u / 16) by (apply Z.div_pos; lia).
    assert (Hpow : 16 ^ Z.of_nat n = 16 * 16 ^ Z.of_nat (S fuel))
      by (subst n; rewrite (Nat2Z.inj_succ (S fuel)), Z.pow_succ_r; lia).
    assert (Hbig : 1 <= 16 ^ Z.of_nat (S fuel))
      by (assert (0 < 16 ^ Z.of_nat (S fuel))
            by (apply Z.pow_pos_nonneg; lia); lia).
    destruct (u / 16 =? 0) eqn:E.
    + apply Z.eqb_eq in E. cbn [length]. lia.
    + specialize (IH (u / 16) (Fmt.hexdigit (u mod 16) :: acc) Hq).
      cbn [length] in IH. rewrite Hpow. split; intros H.
      * assert (16 ^ Z.of_nat (S fuel) <= u / 16) by (apply IH; lia). lia.
      * assert (16 ^ Z.of_nat (S fuel) <= u / 16) by lia.
        apply IH in H0. lia.
Qed.

Lemma digest_crc32_full (data : list byte) :
  length (digest TypeCRC32 data) = 8%nat <->
  0x10000000 <= CRC32.checksum data.
Proof.
  cbn [digest]. unfold Fmt.hex_uint32.
  pose proof (hex_digits_full 6 (CRC32.checksum data) []
                (crc32_checksum_nonneg data)) as H.
  cbn [length Nat.add] in H. exact H.
Qed.

(** X14.  The line [WriteToFile] prints for a CRC32 entry with a
    filename of word characters and dots is read back by the parser, as
    that filename and checksum, exactly when the CRC is at least
    [0x10000000]; for a smaller CRC the printed checksum is shorter than
    eight digits and no pattern matches the line. *)
Theorem crc32_line_read_back (f : gostring) (data : list byte) :
  plainName f ->
  classifyLine (renderLine TypeCRC32 f (digest TypeCRC32 data))
  = if 0x10000000 <=? CRC32.checksum data
    then Some (TypeCRC32, f, digest TypeCRC32 data)
    else None.
Proof.
  intros Hf. rewrite classify_crc32_layout by auto using digest_word.
  pose proof (digest_crc32_full data) as H.
  destruct (0x10000000 <=? CRC32.checksum data) eqn:E.
  - apply Z.leb_le in E. apply H in E. now rewrite E.
  - apply Z.leb_gt in E.
    destruct (length (digest TypeCRC32 data) =? 8)%nat eqn:El;
      [|reflexivity].
    apply Nat.eqb_eq in El. apply H in El. lia.
Qed.

Lemma crc32_line_read_back_witness :
  classifyLine (renderLine TypeCRC32 (str "z")
                           (digest TypeCRC32 (repeat "z"%char 56)))
  = if 0x10000000 <=? CRC32.checksum (repeat "z"%char 56)
    then Some (TypeCRC32, str "z", digest TypeCRC32 (repeat "z"%char 56))
    else None.
Proof.
  apply (crc32_line_read_back (str "z") (repeat "z"%char 56)).
  split; [discriminate | reflexivity].
Defined.

(** ** The two probes *)

(** X15.  The probe of the creation path is the probe of the
    verification path run on a fresh entry, and probing an entry a
    second time changes nothing. *)
Theorem probes_agree (w : World) (t : ChecksumType) (name : gostring)
  (e : ChecksumFile) :
  createChecksumFile w t name
  = verifyChecksumFile w (mkChecksumFile t StatusUnknown name 0 [] []) /\
  verifyChecksumFile w (verifyChecksumFile w e) = verifyChecksumFile w e.
Proof.
  split; [reflexivity|].
  destruct (verifyChecksumFile_fields w e) as (_ & Hname & _).
  unfold verifyChecksumFile at 1. rewrite Hname.
  unfold verifyChecksumFile.
  destruct (fs w (Filename e)) as [f|]; [|reflexivity].
  destruct (Stat f) as [fi|]; [|reflexivity].
  destruct (IsDir fi); reflexivity.
Qed.

(** ** Status texts *)

(** X16.  [StatusTypeToString] gives every status a text of its own. *)
Theorem StatusTypeToString_injective (a b : ChecksumStatus) :
  StatusTypeToString a = StatusTypeToString b <-> a = b.
Proof.
  split; [|now intros ->].
  destruct a, b; intros H; try reflexivity; vm_compute in H; discriminate.
Qed.

(** ** The hashing stage as a whole *)

(** X17.  [calculateChecksum] touches only entries in status [StatusOK].
    For such an entry with a known algorithm it returns with status
    [StatusCheckSumOK] and, as checksum, the digest of the whole stream
    the file delivers, however the loop cuts it into reads (one byte at a
    time for CRC32, sixty-four for the others); without an algorithm it
    does not return. *)
Theorem calculateChecksum_outcome (w : World) (cf : ChecksumFile) :
  calculateChecksum w cf
  = match Status cf with
    | StatusOK =>
        match ChecksumType_ cf with
        | TypeUnknown => Diverges
        | _ =>
            Ret (set_Checksum (set_Status cf StatusCheckSumOK)
                   (digest (ChecksumType_ cf) (streamed w (Filename cf))))
        end
    | _ => Ret cf
    end.
Proof.
  destruct (Status cf) eqn:Es;
    try (apply calculateChecksum_skip; congruence).
  destruct (ChecksumType_ cf) eqn:Et;
    [now apply calculateChecksum_unknown_type | ..];
    rewrite <- Et; apply calculateChecksum_known; congruence.
Qed.

(** ** The round trip with CRC32 *)

(** X18.  The round trip of [Create], [WriteToFile] and [Verify] holds
    with CRC32 as well for readable regular files with names of word
    characters and dots, provided the CRC of every file is at least
    [0x10000000], so that it prints as eight digits. *)
Theorem round_trip_crc32_large (w : World) (files : list gostring)
  (path : gostring) :
  Forall (fun name => readableRegular w name /\ plainName name /\
                      shortName name /\
                      0x10000000 <= CRC32.checksum (streamed w name))
         files ->
  ~ In path files ->
  headerFits w ->
  writable w path ->
  RoundTrip w TypeCRC32 files path.
Proof.
  intros Hfiles Hpath Hhead Hw. rewrite Forall_forall in Hfiles.
  apply round_trip_of_length; auto; try discriminate.
  - rewrite Forall_forall. intros name Hin.
    apply digest_crc32_full. now apply Hfiles.
  - rewrite Forall_forall. intros name Hin.
    destruct (Hfiles name Hin) as (H1 & H2 & H3 & _). auto.
Qed.

Lemma round_trip_crc32_large_witness :
  RoundTrip (quiet twoFiles []) TypeCRC32 [str "a.txt"] (str "sums.sfv").
Proof.
  apply (round_trip_crc32_large (quiet twoFiles []) [str "a.txt"]
           (str "sums.sfv")).
  - constructor; [|constructor]. split; [|split; [|split]].
    + exists (regular (str "abc")), (mkFileInfo false 3). repeat split.
    + split; [discriminate | reflexivity].
    + unfold shortName, PATH_MAX. cbn. lia.
    + vm_compute. discriminate.
  - intros [H | []]; vm_compute in H; discriminate.
  - split; vm_compute; reflexivity.
  - split; [intros k; reflexivity | reflexivity].
Defined.

(** ** Entries that failed the probe, through [Verify] *)

(** A manifest line for a missing file, through [Verify]. *)
Lemma Verify_keeps_terminal_witness :
  Forall2 (fun e r => terminalFailure (Status e) = true -> r = e)
    [mkChecksumFile TypeCRC32 StatusNotFound (str "none") 0 []
                    (str "00000000")]
    [mkChecksumFile TypeCRC32 StatusNotFound (str "none") 0 []
                    (str "00000000")].
Proof.
  apply (Verify_keeps_terminal (quiet twoFiles (str "none 00000000")) [] 0);
    vm_compute; reflexivity.
Defined.

(* ================================================================== *)
(** * Terminal failure states over the operations of the engine *)


(** The entries of the runs are entries of the engine. *)
Lemma Create_arises (w : World) (t : ChecksumType) (files : list gostring)
  (results : list ChecksumFile) :
  Create w t files = Ret results -> Forall (arises w) results.
Proof.
  unfold Create. intros H. apply mapM_Forall2 in H.
  remember (map (createChecksumFile w t) files) as cfs eqn:E.
  revert files E.
  induction H as [|cf r cfs rs Hr _ IH]; intros [|name files] E;
    try discriminate; constructor.
  - cbn [map] in E. injection E as -> _.
    apply (arises_step w Hashing (createChecksumFile w t name) r);
      [apply arises_create | exact Hr].
  - apply (IH files). cbn [map] in E. now injection E.
Qed.

Lemma lineEntry_arises (w : World) (line : gostring) :
  Forall (arises w) (lineEntry w line).
Proof.
  unfold lineEntry. destruct line as [|c l]; [constructor|].
  destruct (Ascii.eqb c ";"%char); [constructor|].
  destruct (classifyLine (c :: l)) as [[[t f] d]|] eqn:E; [|constructor].
  constructor; [|constructor]. now apply (arises_parse w (c :: l)).
Qed.

Lemma Verify_arises (w : World) (file : gostring)
  (results : list ChecksumFile) :
  Verify w file = Ret results -> Forall (arises w) results.
Proof.
  unfold Verify. rewrite parseSfvFile_closed.
  destruct (manifestInput w file) as [input|]; [|discriminate].
  destruct (existsb isEmptyLine (ScanLines input)); [discriminate|].
  cbn [bind]. intros H. apply mapM_Forall2 in H.
  assert (Hin : Forall (arises w) (flat_map (lineEntry w) (ScanLines input)))
    by (apply flat_map_Forall; intros line; apply lineEntry_arises).
  induction H as [|e r es rs Hr _ IH]; constructor.
  - inversion Hin as [|? ? He _]; subst.
    unfold verifyOne in Hr.
    destruct (calculateChecksum w e) as [h| | |] eqn:Eh; try discriminate.
    cbn [bind] in Hr. apply Ret_inj in Hr. subst r.
    apply (arises_step w Comparison h); [|reflexivity].
    now apply (arises_step w Hashing e).
  - apply IH. now inversion Hin.
Qed.



